(** * covid19mtl: the data refresh pipeline of [app/refreshdata.py]

    A shallow embedding of the scraper: the cell normalizer [norm_cell], the
    versioned store ([backup], [save_df]), the remote fetcher ([fetch],
    [normalize_encoding]), the HTML table extractor ([parse_data_mtl]), the run
    lock ([lock]) and the orchestrator ([main]).

    Conventions.
    - A Python [str] is a Rocq [string] whose characters are the code points
      below 256; the character classes of [re] and [str] ([\d], [str.isspace])
      are the ones Python has on that range.
    - A Python [bytes] value is a Rocq [string] too, one character per byte.
    - Everything outside the process (file system, clock, network, advisory
      locks) is a component of the [world] record, threaded through the
      functions; a raised exception is the [Raise] result, with the world at
      the time it was raised.
    - The calls of [logging] are left out: they change nothing that the
      statements observe. *)

From Stdlib Require Import String Ascii List Bool Arith Lia.
From stdpp Require Import base option list strings pretty gmap.

Local Open Scope list_scope.
Local Open Scope string_scope.

(** ** Cell normalizer *)

Module CellNormalizer.

(** [str.isspace] on one character: TAB..CR, FS..US, SPACE, NEL, NBSP. *)
Definition isspace (c : ascii) : bool :=
  let n := nat_of_ascii c in
  (((9 <=? n) && (n <=? 13)) || ((28 <=? n) && (n <=? 32))
   || (n =? 133) || (n =? 160))%nat.

(** The class [\d] of [re]: the decimal digits. *)
Definition isdigit (c : ascii) : bool :=
  let n := nat_of_ascii c in ((48 <=? n) && (n <=? 57))%nat.

(** One character of the group [(?:\d| |,)]. *)
Definition num_char (c : ascii) : bool :=
  isdigit c || (c =? " ")%char || (c =? ",")%char.

(** The longest prefix of [s] made of characters of class [p]: what a greedy
    [+] or [*] consumes when nothing follows it in the pattern. *)
Fixpoint span (p : ascii -> bool) (s : string) : string :=
  match s with
  | String c s' => if p c then String c (span p s') else ""
  | "" => ""
  end.

(** [((?:\d| |,)+)] tried at the start of [s]: group 1, if it matches. *)
Definition num_group (s : string) : option string :=
  match span num_char s with
  | "" => None
  | g => Some g
  end.

(** [NUM_PAT.match(text)] with [NUM_PAT = re.compile(r'\*?((?:\d| |,)+)')]:
    [Some g] gives [match.group(1)], [None] is no match.  The optional star is
    tried first; when the group fails after it, the star is given back and the
    group is tried at the start of the text. *)
Definition NUM_PAT_match (text : string) : option string :=
  match text with
  | String "*" rest =>
      match num_group rest with
      | Some g => Some g
      | None => num_group text
      end
  | _ => num_group text
  end.

Fixpoint lstrip (s : string) : string :=
  match s with
  | String c s' => if isspace c then lstrip s' else s
  | "" => ""
  end.

Fixpoint rstrip (s : string) : string :=
  match s with
  | String c s' =>
      match rstrip s' with
      | "" => if isspace c then "" else String c ""
      | r => String c r
      end
  | "" => ""
  end.

(** [s.strip()] *)
Definition strip (s : string) : string := rstrip (lstrip s).

(** [s.replace(old, new)] for a one-character [old]. *)
Fixpoint replace (old : ascii) (new : string) (s : string) : string :=
  match s with
  | String c s' =>
      if (c =? old)%char then new ++ replace old new s'
      else String c (replace old new s')
  | "" => ""
  end.

(** [s.split()]: the maximal runs of non-whitespace characters. *)
Fixpoint split (s : string) : list string :=
  match s with
  | "" => []
  | String c s' =>
      if isspace c then split s'
      else
        match s' with
        | "" => [String c ""]
        | String c' _ =>
            if isspace c' then String c "" :: split s'
            else
              match split s' with
              | w :: ws => String c w :: ws
              | [] => [String c ""]
              end
        end
  end.

(** [sep.join(words)] *)
Fixpoint join (sep : string) (words : list string) : string :=
  match words with
  | [] => ""
  | [w] => w
  | w :: ws => w ++ sep ++ join sep ws
  end.

(** [norm_cell(text)] *)
Definition norm_cell (text : string) : string :=
  let text :=
    match NUM_PAT_match text with
    | Some g => replace " " "" (replace "," "." (strip g))
    | None => text
    end in
  (* normalize whitespaces *)
  join " " (split text).

End CellNormalizer.

Import CellNormalizer.

(** ** The world outside the process *)

(** The exceptions the pipeline can end with.  The two [ValueError]s of the
    source are told apart by their message: [ValueError_smaller] is
    ['{} is smaller than the cached version we have on disk.'] of [save_df],
    [ValueError_changed] is ['data_mtl.html changed! We found {} data tables
    rather than {}.'] of [parse_data_mtl]. *)
Inductive exception : Type :=
| ValueError_smaller (filename : string)
| ValueError_changed (found expected : nat)
| RuntimeError (url : string)            (* 'Failed to retrieve {}' *)
| FileExistsError (path : string)        (* os.link onto an existing name *)
| FileNotFoundError (path : string)      (* open/os.open/os.link of a missing file *)
| BlockingIOError                        (* flock(LOCK_EX | LOCK_NB) on a held lock *)
| OSError_EBADF (fd : nat)               (* flock on a descriptor that is not open *)
| DecodeError (encoding : string)        (* LookupError or UnicodeDecodeError *)
| ConnectionError (url : string).        (* requests.get got no response *)

(** What [requests.get] returns, as far as [fetch] reads it. *)
Record response : Type := Response {
  status_code : nat;
  content_type : option string;          (* resp.headers.get('Content-Type') *)
  content : string                       (* resp.content *)
}.

(** The operations on the outside world, in the order they happen. *)
Inductive event : Type :=
| Linked (src dst : string)              (* os.link(src, dst) *)
| Wrote (path : string) (data : string)  (* open(path, 'w' or 'wb') and write *)
| Requested (url : string).              (* requests.get(url) *)

(** The world.  A directory entry names an inode, so that two hard links
    share one content; an inode without an entry in [inodes] is an empty file.
    Every name is the name of a regular file; [dirs] holds the directories, by
    the name [os.path.dirname] gives them.  An open file
    description belongs to a process and refers to an inode; an exclusive
    [flock] is held by an open file description.  [time_tags n] is what the
    [n]-th call of [datetime.utcnow().isoformat()] returns; [net] holds, per
    URL, the responses the next requests will get. *)
Record world : Type := World {
  names : gmap string nat;
  dirs : gset string;
  inodes : gmap nat string;
  ofds : gmap nat (nat * nat);
  flocks : gmap nat nat;
  time_tags : nat -> string;
  ticks : nat;
  net : gmap string (list response);
  events : list event
}.

Definition set_names (f : gmap string nat -> gmap string nat) (w : world) : world :=
  World (f (names w)) (dirs w) (inodes w) (ofds w) (flocks w) (time_tags w) (ticks w) (net w) (events w).
Definition set_inodes (f : gmap nat string -> gmap nat string) (w : world) : world :=
  World (names w) (dirs w) (f (inodes w)) (ofds w) (flocks w) (time_tags w) (ticks w) (net w) (events w).
Definition set_ofds (f : gmap nat (nat * nat) -> gmap nat (nat * nat)) (w : world) : world :=
  World (names w) (dirs w) (inodes w) (f (ofds w)) (flocks w) (time_tags w) (ticks w) (net w) (events w).
Definition set_flocks (f : gmap nat nat -> gmap nat nat) (w : world) : world :=
  World (names w) (dirs w) (inodes w) (ofds w) (f (flocks w)) (time_tags w) (ticks w) (net w) (events w).
Definition set_ticks (f : nat -> nat) (w : world) : world :=
  World (names w) (dirs w) (inodes w) (ofds w) (flocks w) (time_tags w) (f (ticks w)) (net w) (events w).
Definition set_net (f : gmap string (list response) -> gmap string (list response)) (w : world) : world :=
  World (names w) (dirs w) (inodes w) (ofds w) (flocks w) (time_tags w) (ticks w) (f (net w)) (events w).
Definition log_event (e : event) (w : world) : world :=
  World (names w) (dirs w) (inodes w) (ofds w) (flocks w) (time_tags w) (ticks w) (net w) (events w ++ [e])%list.

(** ** Computations: state passing with exceptions *)

Inductive result (A : Type) : Type :=
| Ok (a : A) (w : world)
| Raise (e : exception) (w : world).
Arguments Ok {A} a w.
Arguments Raise {A} e w.

Definition M (A : Type) : Type := world -> result A.

Definition ret {A} (a : A) : M A := fun w => Ok a w.
Definition raise {A} (e : exception) : M A := fun w => Raise e w.
Definition bind {A B} (c : M A) (k : A -> M B) : M B :=
  fun w => match c w with
           | Ok a w' => k a w'
           | Raise e w' => Raise e w'
           end.

(** The exception a computation ended with, and the world it left. *)
Definition raised {A} (r : result A) : option exception :=
  match r with
  | Ok _ _ => None
  | Raise e _ => Some e
  end.

Definition world_of {A} (r : result A) : world :=
  match r with
  | Ok _ w => w
  | Raise _ w => w
  end.

Declare Scope py_scope.
Delimit Scope py_scope with py.
Notation "x <- c ;; k" := (bind c (fun x => k))
  (at level 100, c at next level, right associativity) : py_scope.
Notation "c ;; k" := (bind c (fun _ => k))
  (at level 100, right associativity) : py_scope.
Local Open Scope py_scope.

(** [for x in xs: body(x)] *)
Fixpoint for_each {A} (xs : list A) (body : A -> M unit) : M unit :=
  match xs with
  | [] => ret tt
  | x :: xs' => body x ;; for_each xs' body
  end.

(** What one iteration of a loop inside a function does: it reaches its end
    and the loop goes on, or it returns from the function. *)
Inductive flow (A : Type) : Type :=
| Next
| Return (a : A).
Arguments Next {A}.
Arguments Return {A} a.

(** [for x in xs: body(x)] followed by [after], where [body] may [return]. *)
Fixpoint for_return {A B} (xs : list A) (body : A -> M (flow B)) (after : M B) : M B :=
  match xs with
  | [] => after
  | x :: xs' =>
      r <- body x ;;
      match r with
      | Return b => ret b
      | Next => for_return xs' body after
      end
  end.

(** ** Paths ([posixpath]) *)

Definition startswith_sep (s : string) : bool :=
  match s with
  | String "/" _ => true
  | _ => false
  end.

Fixpoint endswith_sep (s : string) : bool :=
  match s with
  | "" => false
  | String c "" => (c =? "/")%char
  | String _ s' => endswith_sep s'
  end.

(** [os.path.join(a, *p)] *)
Definition os_path_join (a : string) (p : list string) : string :=
  fold_left
    (fun path b =>
       if startswith_sep b then b
       else if (String.length path =? 0)%nat || endswith_sep path then (path ++ b)%string
       else (path ++ "/" ++ b)%string)
    p a.

(** [s.rfind(c)]: the last index of [c] in [s]. *)
Fixpoint rfind (c : ascii) (s : string) : option nat :=
  match s with
  | "" => None
  | String d s' =>
      match rfind c s' with
      | Some i => Some (S i)
      | None => if (d =? c)%char then Some 0 else None
      end
  end.

Fixpoint all_dots (s : string) : bool :=
  match s with
  | "" => true
  | String c s' => (c =? ".")%char && all_dots s'
  end.

Fixpoint all_sep (s : string) : bool :=
  match s with
  | "" => true
  | String c s' => (c =? "/")%char && all_sep s'
  end.

(** [s.rstrip('/')] *)
Fixpoint rstrip_sep (s : string) : string :=
  match s with
  | "" => ""
  | String c s' =>
      match rstrip_sep s' with
      | "" => if (c =? "/")%char then "" else String c ""
      | r => String c r
      end
  end.

(** [os.path.dirname(p)]: what comes before the last component, without the
    slashes that end it, unless it is made of slashes only. *)
Definition os_path_dirname (p : string) : string :=
  let i := match rfind "/" p with Some i => S i | None => 0 end in
  let head := substring 0 i p in
  if negb (String.length head =? 0)%nat && negb (all_sep head)
  then rstrip_sep head
  else head.

(** [os.path.splitext(p)]: split at the last dot of the last component,
    unless only dots come before it in that component. *)
Definition os_path_splitext (p : string) : string * string :=
  match rfind "." p with
  | None => (p, "")
  | Some dotIndex =>
      let filenameIndex := match rfind "/" p with Some i => S i | None => 0 end in
      if (filenameIndex <=? dotIndex)%nat
         && negb (all_dots (substring filenameIndex (dotIndex - filenameIndex) p))
      then (substring 0 dotIndex p, substring dotIndex (String.length p - dotIndex) p)
      else (p, "")
  end.

(** ** File system, clock, network and locks *)

Definition content_of (w : world) (ino : nat) : string :=
  default "" (inodes w !! ino).

(** The content of the file at [path], if there is one. *)
Definition read_file (w : world) (path : string) : option string :=
  content_of w <$> names w !! path.

(** [os.path.isfile(path)] *)
Definition os_path_isfile (path : string) : M bool :=
  fun w => Ok (bool_decide (is_Some (names w !! path))) w.

(** [os.path.getsize(path)] *)
Definition os_path_getsize (path : string) : M nat :=
  fun w => match read_file w path with
           | Some data => Ok (String.length data) w
           | None => Raise (FileNotFoundError path) w
           end.

(** [open(path, 'rb').read()] *)
Definition open_read (path : string) : M string :=
  fun w => match read_file w path with
           | Some data => Ok data w
           | None => Raise (FileNotFoundError path) w
           end.

(** The directory [open] would create [path] in is there: the current
    directory, the root, or a directory of the world. *)
Definition parent_dir_exists (w : world) (path : string) : bool :=
  let d := os_path_dirname path in
  all_sep d || bool_decide (d ∈ dirs w).

(** An inode that no name and no content uses. *)
Definition fresh_inode (w : world) : nat :=
  fresh (dom (inodes w) ∪ map_img (SA := gset nat) (names w)).

(** The world after [data] is written to [path] on inode [ino]. *)
Definition written (path : string) (ino : nat) (data : string) (w : world) : world :=
  log_event (Wrote path data)
    (set_inodes <[ino := data]> (set_names <[path := ino]> w)).

(** [with open(path, 'w') as f: f.write(data)], the same in mode ['wb']:
    an existing file is truncated and rewritten in place, under all its
    names; a missing one is created on a new inode, and [open] raises
    [FileNotFoundError] when its directory is missing too. *)
Definition open_write (path : string) (data : string) : M unit :=
  fun w =>
    match names w !! path with
    | Some ino => Ok tt (written path ino data w)
    | None =>
        if parent_dir_exists w path
        then Ok tt (written path (fresh_inode w) data w)
        else Raise (FileNotFoundError path) w
    end.

(** [os.link(src, dst)] *)
Definition os_link (src dst : string) : M unit :=
  fun w => match names w !! src with
           | None => Raise (FileNotFoundError src) w
           | Some ino =>
               match names w !! dst with
               | Some _ => Raise (FileExistsError dst) w
               | None => Ok tt (log_event (Linked src dst) (set_names <[dst := ino]> w))
               end
           end.

(** [datetime.utcnow().isoformat()] *)
Definition utcnow_isoformat : M string :=
  fun w => Ok (time_tags w (ticks w)) (set_ticks S w).

(** [requests.get(url)] *)
Definition requests_get (url : string) : M response :=
  fun w => let w := log_event (Requested url) w in
           match net w !! url with
           | Some (resp :: rest) => Ok resp (set_net <[url := rest]> w)
           | _ => Raise (ConnectionError url) w
           end.

(** [os.open(path, os.O_RDONLY)] by process [pid]: a new open file
    description. *)
Definition os_open (pid : nat) (path : string) : M nat :=
  fun w => match names w !! path with
           | None => Raise (FileNotFoundError path) w
           | Some ino =>
               let fd := fresh (dom (ofds w)) in
               Ok fd (set_ofds <[fd := (pid, ino)]> w)
           end.

(** [fcntl.flock(fd, fcntl.LOCK_EX | fcntl.LOCK_NB)] *)
Definition flock_EX_NB (fd : nat) : M unit :=
  fun w => match ofds w !! fd with
           | None => Raise (OSError_EBADF fd) w
           | Some (_, ino) =>
               match flocks w !! ino with
               | None => Ok tt (set_flocks <[ino := fd]> w)
               | Some holder =>
                   if decide (holder = fd) then Ok tt w else Raise BlockingIOError w
               end
           end.

(** The process [pid] ends: its open file descriptions are closed, and the
    locks they hold are gone with them. *)
Definition process_exit (pid : nat) (w : world) : world :=
  let closed (fd : nat) : bool :=
    match ofds w !! fd with
    | Some (owner, _) => bool_decide (owner = pid)
    | None => true
    end in
  set_flocks (filter (fun kv => closed kv.2 = false))
    (set_ofds (filter (fun kv => kv.2.1 <> pid)) w).

(** ** Run lock *)

(** The Python values that [lock] formats. *)
Inductive pyobject : Type :=
| PyInt (n : nat)
| PyBuiltinFunction (name : string).

(** ['{}'.format(obj)] *)
Definition format (obj : pyobject) : string :=
  match obj with
  | PyInt n => pretty n
  | PyBuiltinFunction name => "<built-in function " ++ name ++ ">"
  end.

(** The name [os.getpid]: the function, not a call of it. *)
Definition os_getpid : pyobject := PyBuiltinFunction "getpid".

(** A text file is written in the encoding of the locale, taken to be UTF-8:
    a code point below 128 is one byte, the others below 256 are two. *)
Fixpoint locale_encode (s : string) : string :=
  match s with
  | "" => ""
  | String c s' =>
      let n := nat_of_ascii c in
      if (n <? 128)%nat then String c (locale_encode s')
      else String (ascii_of_nat (192 + n / 64))
             (String (ascii_of_nat (128 + n mod 64)) (locale_encode s'))
  end.

(** [lock(lock_dir)], run by process [pid]. *)
Definition lock (pid : nat) (lock_dir : string) : M unit :=
  let lockf := os_path_join lock_dir ["scraper.pid"] in
  present <- os_path_isfile lockf ;;
  (if negb present
   then open_write lockf ""     (* create the file, empty *)
   else ret tt) ;;
  fd <- os_open pid lockf ;;
  flock_EX_NB fd ;;
  (* No unlocking: the descriptor stays open until the process exits. *)
  open_write lockf (locale_encode (format os_getpid)).

(** ** Versioned store *)

(** [backup(filename)] *)
Definition backup (filename : string) : M unit :=
  present <- os_path_isfile filename ;;
  if negb present then ret tt
  else
    time_tag <- utcnow_isoformat ;;
    let '(base, ext) := os_path_splitext filename in
    os_link filename (base ++ "-" ++ time_tag ++ ext).

(** [save_df(filename, data)] *)
Definition save_df (filename : string) (data : string) : M unit :=
  present <- os_path_isfile filename ;;
  (if present then
     size <- os_path_getsize filename ;;
     if (String.length data <? size)%nat
     then raise (ValueError_smaller filename)
     else backup filename
   else ret tt) ;;
  (* it's all good if we made it this far, save the new file *)
  open_write filename data.

(** The name [backup] links [filename] to at time [time_tag]. *)
Definition backup_name (filename time_tag : string) : string :=
  let '(base, ext) := os_path_splitext filename in
  base ++ "-" ++ time_tag ++ ext.

(** The files written, in order: the [Wrote] events. *)
Fixpoint writes (evs : list event) : list (string * string) :=
  match evs with
  | [] => []
  | Wrote path data :: evs' => (path, data) :: writes evs'
  | _ :: evs' => writes evs'
  end.

(** The requests sent, in order: the [Requested] events. *)
Fixpoint requests (evs : list event) : list string :=
  match evs with
  | [] => []
  | Requested url :: evs' => url :: requests evs'
  | _ :: evs' => requests evs'
  end.

(** ** Remote fetcher *)

(** The class [\w] of [re] on a [str]: alphanumeric characters and [_]. *)
Definition isword (c : ascii) : bool :=
  let n := nat_of_ascii c in
  (((48 <=? n) && (n <=? 57)) || ((65 <=? n) && (n <=? 90)) || (n =? 95)
   || ((97 <=? n) && (n <=? 122)) || (n =? 170) || (n =? 178) || (n =? 179)
   || (n =? 181) || (n =? 185) || (n =? 186) || ((188 <=? n) && (n <=? 190))
   || ((192 <=? n) && (n <=? 214)) || ((216 <=? n) && (n <=? 246))
   || (248 <=? n))%nat.

(** What is left of [s] after the literal [lit], if [s] starts with it. *)
Fixpoint after_literal (lit s : string) : option string :=
  match lit, s with
  | "", _ => Some s
  | String a lit', String b s' =>
      if (a =? b)%char then after_literal lit' s' else None
  | String _ _, "" => None
  end.

(** [charset=((\w|-)+)] tried at the start of [s]: group 1, if it matches. *)
Definition charset_here (s : string) : option string :=
  match after_literal "charset=" s with
  | Some rest =>
      match span (fun c => isword c || (c =? "-")%char) rest with
      | "" => None
      | g => Some g
      end
  | None => None
  end.

(** [CHARSET_PAT.search(s)] with
    [CHARSET_PAT = re.compile(r'charset=((\w|-)+)')]: group 1 of the
    leftmost match. *)
Fixpoint CHARSET_PAT_search (s : string) : option string :=
  match charset_here s with
  | Some g => Some g
  | None =>
      match s with
      | "" => None
      | String _ s' => CHARSET_PAT_search s'
      end
  end.

Definition NB_RETRIES : nat := 3.

(** The expression statement [next]: the name of the builtin is evaluated and
    dropped; control goes on with the following statement. *)
Definition next_ : M unit := ret tt.

(** ** HTML table extractor *)

(** One element of [soup.select('table.contenttable')], with what
    [parse_data_mtl] reads of it. *)
Record table : Type := Table {
  has_info_cell : bool;      (* t.find('td', attrs=dict(bgcolor='#A1C8E7')) *)
  has_p : bool;              (* t.find('p') *)
  has_h4 : bool;             (* t.find('h4') *)
  rows : list (list string)  (* [td.text for td in tr.select('th,td')] for tr in t.select('tr') *)
}.

(** The loop that keeps the data tables. *)
Fixpoint select_data_tables (tables : list table) : list table :=
  match tables with
  | [] => []
  | t :: ts =>
      if has_info_cell t then select_data_tables ts
      else if has_p t || has_h4 t then select_data_tables ts
      else t :: select_data_tables ts
  end.

Definition DQUOTE : ascii := "034"%char.
Definition CR : ascii := "013"%char.
Definition LF : ascii := "010"%char.

Fixpoint contains (p : ascii -> bool) (s : string) : bool :=
  match s with
  | "" => false
  | String c s' => p c || contains p s'
  end.

(** One field as [csv.writer] writes it in the default dialect: quoted when it
    holds the delimiter, the quote character or a character of the line
    terminator; a quote character inside is doubled. *)
Definition csv_field (field : string) : string :=
  if contains (fun c => (c =? ",")%char || (c =? DQUOTE)%char
                        || (c =? CR)%char || (c =? LF)%char) field
  then String DQUOTE (replace DQUOTE (String DQUOTE (String DQUOTE "")) field
                      ++ String DQUOTE "")
  else field.

(** [writer.writerow(row)]: a record of one empty field is written quoted. *)
Definition csv_row (row : list string) : string :=
  match row with
  | [ "" ] => String DQUOTE (String DQUOTE (String CR (String LF "")))
  | _ => join "," (map csv_field row) ++ String CR (String LF "")
  end.

(** [writer.writerows(rows)] *)
Definition csv_writerows (rows : list (list string)) : string :=
  String.concat "" (map csv_row rows).

Definition nb_tables : nat := 4.

Definition file_names : list string :=
  ["mtl_ciusss.csv"; "mtl_borough.csv"; "mtl_ages.csv"; "mtl_gender.csv"].

(** ** Orchestrator *)

Definition SOURCES : list (string * string) :=
  [("data_mtl.html", "https://santemontreal.qc.ca/population/coronavirus-covid-19/");
   ("data_qc.csv", "https://www.inspq.qc.ca/sites/default/files/covid/donnees/combine.csv");
   ("data_qc_case_by_network.csv", "https://www.inspq.qc.ca/sites/default/files/covid/donnees/tableau-rls.csv");
   ("data_qc_death_loc_by_reg.csv", "https://www.inspq.qc.ca/sites/default/files/covid/donnees/tableau-rpa.csv")].

Section Pipeline.

(** The libraries the pipeline calls: the codecs of Python, where [None] is a
    [LookupError] or a [UnicodeDecodeError], and the HTML parser. *)
Context {unicode : Type}.
Variable bytes_decode : string -> string -> option unicode.   (* data.decode(encoding) *)
Variable str_encode_utf8 : unicode -> string.                 (* text.encode('utf-8') *)
Variable soup_select_contenttable : string -> list table.
  (* bs4.BeautifulSoup(document, 'lxml').select('table.contenttable') *)

(** [normalize_encoding(data, content_type)] *)
Definition normalize_encoding (data : string) (content_type : option string) : M string :=
    let encoding := "utf-8" in
    let encoding :=
      match content_type with
      | Some (String _ _ as ctype) =>
          match CHARSET_PAT_search ctype with
          | Some g => g
          | None => encoding
          end
      | _ => encoding
      end in
    match bytes_decode encoding data with
    | Some text => ret (str_encode_utf8 text)
    | None => raise (DecodeError encoding)
    end.

(** [fetch(url)] *)
Definition fetch (url : string) : M string :=
    for_return (seq 0 NB_RETRIES)
      (fun i =>
         resp <- requests_get url ;;
         (if negb (status_code resp =? 200)%nat then next_ else ret tt) ;;
         let ctype := content_type resp in
         data <- normalize_encoding (content resp) ctype ;;
         ret (Return data))
      (raise (RuntimeError url)).

(** The body of the last loop of [parse_data_mtl]. *)
Definition write_table (data_dir : string) (ft : string * table) : M unit :=
    let '(filename, t) := ft in
    let rows := map (fun tr => map norm_cell tr) (rows t) in
    let fq_path := os_path_join data_dir ["processed"; filename] in
    backup fq_path ;;
    open_write fq_path (locale_encode (csv_writerows rows)).

(** [parse_data_mtl(data_dir)] *)
Definition parse_data_mtl (data_dir : string) : M unit :=
    let source := os_path_join data_dir ["sources"; "data_mtl.html"] in
    document <- open_read source ;;
    let tables := soup_select_contenttable document in
    let data_tables := select_data_tables tables in
    (if negb (length data_tables =? nb_tables)%nat
     then raise (ValueError_changed (length data_tables) nb_tables)
     else ret tt) ;;
    for_each (zip file_names data_tables) (write_table data_dir).

(** One turn of the loop of [main] over [SOURCES.items()]. *)
Definition refresh_source (data_dir : string) (entry : string * string) : M unit :=
    let '(file, url) := entry in
    data <- fetch url ;;
    save_df (os_path_join data_dir ["sources"; file]) data.

(** [main()], run by process [pid] with the parsed arguments
    [args.data_dir] and [args.local]. *)
Definition main (pid : nat) (data_dir : string) (local : bool) : M nat :=
    lock pid data_dir ;;
    (if negb local
     then for_each SOURCES (refresh_source data_dir)
     else ret tt) ;;
    parse_data_mtl data_dir ;;
    ret 0.

End Pipeline.

(** ** Worlds and libraries to run the pipeline on *)

(** A world with no directory, no file, no lock and no response, where the
    [n]-th time tag ends in [n]. *)
Definition bare_world : world :=
  World ∅ ∅ ∅ ∅ ∅ (fun n => "2020-04-01T12:00:00." ++ pretty n) 0 ∅ [].

(** The world with one more directory. *)
Definition put_dir (d : string) (w : world) : world :=
  World (names w) ({[d]} ∪ dirs w) (inodes w) (ofds w) (flocks w) (time_tags w)
    (ticks w) (net w) (events w).

(** A data directory with its two subdirectories and no file. *)
Definition empty_world : world :=
  put_dir "data/processed" (put_dir "data/sources" (put_dir "data" bare_world)).

(** The world with one more file, on an inode of its own. *)
Definition put_file (path data : string) (w : world) : world :=
  let ino := fresh_inode w in
  set_inodes <[ino := data]> (set_names <[path := ino]> w).

(** The world where the next requests to [url] get [resps]. *)
Definition put_responses (url : string) (resps : list response) (w : world) : world :=
  set_net <[url := resps]> w.

(** The utf-8 codec on ASCII payloads, which it decodes and encodes
    unchanged.  It knows no other encoding and takes no other payload. *)
Definition ascii_decode (encoding data : string) : option string :=
  if String.eqb encoding "utf-8"
     && negb (contains (fun c => (128 <=? nat_of_ascii c)%nat) data)
  then Some data else None.

Definition ascii_encode (text : string) : string := text.

(** A data table of no row, and a table of prose. *)
Definition empty_table : table := Table false false false [].
Definition prose_table : table := Table false true false [["Note"]].

(** The world after a first save of ["hello"]. *)
Definition saved_world : world :=
  world_of (save_df "data/sources/data_qc.csv" "hello" empty_world).


Definition ciusss_table : table :=
  Table false false false [["CIUSSS"; "Cas"]; ["Centre-Sud"; "1 234"]; ["Total"; "*5 678,9"]].
Definition info_table : table := Table true false false [["Information"]].

Definition soup_4 (document : string) : list table :=
  [info_table; ciusss_table; empty_table; prose_table; empty_table; empty_table].




(** A source that fails twice and then answers, and one that always fails. *)
Definition flaky_url : string := "https://example.org/flaky.csv".
Definition down_url : string := "https://example.org/down.csv".

Definition unreliable_world : world :=
  put_responses flaky_url
    [Response 500 None "Internal Server Error";
     Response 503 None "Service Unavailable";
     Response 200 (Some "text/csv; charset=utf-8") "a,b"]
    (put_responses down_url
       [Response 500 None "down 1"; Response 500 None "down 2";
        Response 500 None "down 3"; Response 500 None "down 4"]
       empty_world).

(** A run where every source answers, and the answer for the second source is
    shorter than the file cached for it. *)
Definition answering (resp : response) (w : world) : world :=
  fold_right (fun entry => put_responses entry.2 [resp]) w SOURCES.

Definition stale_source_world : world :=
  put_file "data/sources/data_qc.csv" "date,cas,deces"
    (answering (Response 200 (Some "text/html; charset=utf-8") "<html/>") empty_world).

(** The world after process 1 has taken the lock of ["data"]. *)
Definition locked_world : world := world_of (lock 1 "data" empty_world).

(** ** Vocabulary of the statements *)





(** The lock file of a data directory. *)
Definition lock_path (lock_dir : string) : string :=
  os_path_join lock_dir ["scraper.pid"].

(** The lock on the lock file is held, through an open file description of
    some process. *)
Definition held (lock_dir : string) (w : world) : Prop :=
  exists ino fd owner,
    names w !! lock_path lock_dir = Some ino
    /\ flocks w !! ino = Some fd
    /\ ofds w !! fd = Some (owner, ino).

(** The same, naming the process. *)
Definition held_by (lock_dir : string) (pid : nat) (w : world) : Prop :=
  exists ino fd,
    names w !! lock_path lock_dir = Some ino
    /\ flocks w !! ino = Some fd
    /\ ofds w !! fd = Some (pid, ino).

(** ** Down-sampling of the dashboard ([app/core.py]) *)

Module Core.

(** The exceptions of the down-sampling functions. *)
Inductive error : Type :=
| IndexError                   (* single positional indexer is out-of-bounds *)
| ZeroDivisionError            (* integer division or modulo by zero *)
| ValueError_slice_step        (* slice step cannot be zero *)
| KeyError (label : string).

(** [a // b] on integers. *)
Definition floordiv (a b : Z) : error + Z :=
  if (b =? 0)%Z then inl ZeroDivisionError else inr (a / b)%Z.

Section Axis.

(** One axis of a data frame, by position: the columns for [reduce_cols], the
    rows for [reduce_rows]. *)
Context {A : Type}.

(** [df.iloc[i]] along the axis: a negative [i] counts from the end. *)
Definition iloc (df : list A) (i : Z) : error + A :=
  let n := Z.of_nat (length df) in
  let j := if (i <? 0)%Z then (i + n)%Z else i in
  if (j <? 0)%Z then inl IndexError
  else match df !! Z.to_nat j with
       | Some x => inr x
       | None => inl IndexError
       end.

(** A bound of a slice, brought into [0 .. n]. *)
Definition slice_bound (n : nat) (i : Z) : nat :=
  let j := if (i <? 0)%Z then (i + Z.of_nat n)%Z else i in
  Z.to_nat (Z.max 0 (Z.min (Z.of_nat n) j)).

(** [df.iloc[start:stop]] along the axis. *)
Definition iloc_slice (df : list A) (start stop : Z) : list A :=
  let a := slice_bound (length df) start in
  let b := slice_bound (length df) stop in
  take (b - a) (drop a df).

(** The items at distance [step] from one another, after [skip] items. *)
Fixpoint every_from (step skip : nat) (df : list A) : list A :=
  match df with
  | [] => []
  | x :: df' =>
      match skip with
      | O => x :: every_from step (pred step) df'
      | S skip' => every_from step skip' df'
      end
  end.

(** [df.iloc[::step]] along the axis: from the start for a positive step,
    from the end for a negative one. *)
Definition iloc_step (df : list A) (step : Z) : error + list A :=
  if (step =? 0)%Z then inl ValueError_slice_step
  else if (0 <? step)%Z then inr (every_from (Z.to_nat step) 0 df)
  else inr (every_from (Z.to_nat (- step)) 0 (rev df)).

(** [reduce_cols(df, downsample)], on the columns of [df]. *)
Definition reduce_cols (df : list A) (downsample : Z) : error + list A :=
  match iloc df 0 with                       (* always keep title col *)
  | inl e => inl e
  | inr title_col =>
      match iloc df (-1) with                (* always keep data for latest day *)
      | inl e => inl e
      | inr last_col =>
          let cols_to_reduce := iloc_slice df 1 (-1) in
          let ncols := Z.of_nat (length cols_to_reduce) in
          match floordiv ncols downsample with
          | inl e => inl e
          | inr step =>
              match iloc_step cols_to_reduce step with
              | inl e => inl e
              | inr reduced_cols => inr (title_col :: reduced_cols ++ [last_col])%list
              end
          end
      end
  end.

(** [reduce_rows(df, downsample)], on the rows of [df].  [notna] is the test
    [df['cases_mtl_0-4'].notna()] on a row, when the frame has that column. *)
Definition reduce_rows (notna : option (A -> bool)) (df : list A) (downsample : Z)
    : error + list A :=
  match notna with
  | None => inl (KeyError "cases_mtl_0-4")
  | Some has_age_data =>
      let df := List.filter has_age_data df in   (* drop rows with no age data *)
      match iloc df (-1) with                    (* always keep data for latest day *)
      | inl e => inl e
      | inr last_row =>
          let rows_to_reduce := iloc_slice df 0 (-1) in
          let nrows := Z.of_nat (length rows_to_reduce) in
          match floordiv nrows downsample with
          | inl e => inl e
          | inr step =>
              match iloc_step rows_to_reduce step with
              | inl e => inl e
              | inr reduced_rows => inr (reduced_rows ++ [last_row])%list
              end
          end
      end
  end.

End Axis.

End Core.

(** The encoding [normalize_encoding] decodes with: the charset the header
    declares, ["utf-8"] without one. *)
Definition declared_encoding (content_type : option string) : string :=
  match content_type with
  | Some (String _ _ as ctype) =>
      match CHARSET_PAT_search ctype with
      | Some g => g
      | None => "utf-8"
      end
  | _ => "utf-8"
  end.

(** A character of the class [(\w|-)]. *)
Definition charset_char (c : ascii) : bool := isword c || (c =? "-")%char.

(** Two spaces in a row. *)
Fixpoint has_double_space (s : string) : bool :=
  match s with
  | "" => false
  | String a s' =>
      match s' with
      | String b _ => ((a =? " ")%char && (b =? " ")%char) || has_double_space s'
      | "" => false
      end
  end.

(** A computation that stays off the network: it sends no request and takes
    no response. *)
Definition quiet {A} (c : M A) : Prop :=
  forall w,
    net (world_of (c w)) = net w
    /\ requests (events (world_of (c w))) = requests (events w).


(** The name [backup] links [path] to at the [n]-th call of the clock from
    now. *)
Definition future_backup (w : world) (path : string) (n : nat) : string :=
  backup_name path (time_tags w (ticks w + n)).

(** What the world must be for the files [paths] to be backed up and written
    one after the other: a file that is not there has its directory; the names
    its backup can take, with the time tags of as many calls of the clock as
    there are files, are not there, are none of [paths] and are not the names
    the backup of another of the files can take; no two of the files are one
    inode. *)
Definition extraction_ready (w : world) (paths : list string) : Prop :=
  Forall (fun p =>
    (names w !! p = None -> parent_dir_exists w p = true)
    /\ Forall (fun n =>
         names w !! future_backup w p n = None
         /\ (future_backup w p n ∉ paths)
         /\ Forall (fun q => p <> q ->
                Forall (fun m => future_backup w p n <> future_backup w q m)
                  (seq 0 (length paths))) paths)
       (seq 0 (length paths))
    /\ Forall (fun q => p <> q -> is_Some (names w !! p) ->
                        names w !! p <> names w !! q) paths)
    paths.

#[global] Instance extraction_ready_dec (w : world) (paths : list string) :
  Decision (extraction_ready w paths).
Proof. unfold extraction_ready. apply _. Defined.

(** * Properties *)

(** ** Cell normalizer *)

Section CellNormalizerFacts.

(** A word of [split]: not empty, no whitespace in it. *)
Definition word (w : string) : Prop := w <> "" /\ contains isspace w = false.

(** Only decimal digits. *)
Definition digits_only (s : string) : bool := negb (contains (fun c => negb (isdigit c)) s).

Lemma digit_facts c :
    isdigit c = true ->
    isspace c = false /\ num_char c = true /\ (c =? ",")%char = false
    /\ (c =? " ")%char = false /\ c <> "*"%char.
  Proof.
    destruct c as [[] [] [] [] [] [] [] []]; vm_compute;
      intros H; try discriminate H; repeat split; discriminate.
  Qed.

Lemma append_cons c s t : String c s ++ t = String c (s ++ t).
  Proof. reflexivity. Qed.

Lemma append_empty_l t : "" ++ t = t.
  Proof. reflexivity. Qed.

Lemma append_empty_r (s : string) : s ++ "" = s.
  Proof.
    induction s as [|c s IH]; [reflexivity |].
    now rewrite append_cons, IH.
  Qed.

Lemma append_assoc_string (a b c : string) : (a ++ b) ++ c = a ++ b ++ c.
Proof.
  induction a as [|x a IH]; [reflexivity |]. now rewrite !append_cons, IH.
Qed.

Lemma split_word_append w rest :
    word w ->
    match rest with "" => True | String c _ => isspace c = true end ->
    split (w ++ rest) = w :: split rest.
  Proof.
    intros [Hne Hws]. revert Hne Hws.
    induction w as [|c w IH]; intros Hne Hws Hrest; [congruence |].
    simpl in Hws. apply orb_false_iff in Hws as [Hc Hw].
    rewrite append_cons. cbn [split]. rewrite Hc.
    destruct w as [|c2 w].
    - rewrite append_empty_l. destruct rest as [|c' rest]; [reflexivity |].
      now rewrite Hrest.
    - assert (Hc2 : isspace c2 = false).
      { simpl in Hw. now apply orb_false_iff in Hw as [? _]. }
      rewrite IH by (congruence || assumption).
      rewrite append_cons, Hc2. reflexivity.
  Qed.

Lemma split_words s : Forall word (split s).
  Proof.
    induction s as [|c s IH]; [constructor |].
    cbn [split]. destruct (isspace c) eqn:Hc; [exact IH |].
    assert (Hone : word (String c "")).
    { split; [discriminate | simpl; now rewrite Hc]. }
    assert (Hlone : Forall word [String c ""]) by (constructor; [exact Hone | constructor]).
    destruct s as [|c' s']; [exact Hlone |].
    destruct (isspace c') eqn:Hc'; [now constructor |].
    destruct (split (String c' s')) as [|w ws]; [exact Hlone |].
    inversion IH as [|? ? [Hw1 Hw2] Hws]; subst.
    constructor; [| assumption].
    split; [discriminate | simpl; now rewrite Hc, Hw2].
  Qed.

Lemma split_join ws : Forall word ws -> split (join " " ws) = ws.
  Proof.
    induction 1 as [|w ws Hw Hws IH]; [reflexivity |].
    destruct ws as [|w2 ws].
    - simpl. rewrite <- (append_empty_r w) at 1.
      now rewrite split_word_append.
    - change (join " " (w :: w2 :: ws)) with (w ++ " " ++ join " " (w2 :: ws)).
      rewrite append_cons, append_empty_l.
      rewrite split_word_append by (assumption || reflexivity).
      cbn [split]. change (isspace " ") with true. cbv iota.
      now rewrite IH.
  Qed.

(** Collapsing the whitespace twice is collapsing it once. *)
Lemma collapse_idempotent s :
    join " " (split (join " " (split s))) = join " " (split s).
  Proof. now rewrite split_join by apply split_words. Qed.

Lemma span_digits s : digits_only s = true -> span num_char s = s.
  Proof.
    unfold digits_only. induction s as [|c s IH]; [reflexivity |].
    simpl. intros H. apply negb_true_iff, orb_false_iff in H as [Hc Hs].
    apply negb_false_iff in Hc. destruct (digit_facts c Hc) as (_ & -> & _).
    f_equal. apply IH. now rewrite Hs.
  Qed.

Lemma digits_no_space s : digits_only s = true -> contains isspace s = false.
  Proof.
    unfold digits_only. induction s as [|c s IH]; [reflexivity |].
    simpl. intros H. apply negb_true_iff, orb_false_iff in H as [Hc Hs].
    apply negb_false_iff in Hc. destruct (digit_facts c Hc) as (-> & _).
    apply IH. now rewrite Hs.
  Qed.

Lemma lstrip_no_space s : contains isspace s = false -> lstrip s = s.
  Proof.
    destruct s as [|c s]; [reflexivity |]. simpl.
    intros H. now apply orb_false_iff in H as [-> _].
  Qed.

Lemma rstrip_no_space s : contains isspace s = false -> rstrip s = s.
  Proof.
    induction s as [|c s IH]; [reflexivity |]. simpl.
    intros H. apply orb_false_iff in H as [Hc Hs].
    rewrite (IH Hs), Hc. now destruct s.
  Qed.

Lemma replace_digits old new s :
    digits_only s = true -> isdigit old = false -> replace old new s = s.
  Proof.
    unfold digits_only. intros H Hold. induction s as [|c s IH]; [reflexivity |].
    simpl in H |- *. apply negb_true_iff, orb_false_iff in H as [Hc Hs].
    apply negb_false_iff in Hc.
    destruct (Ascii.eqb_spec c old) as [-> | _]; [congruence |].
    f_equal. apply IH. now rewrite Hs.
  Qed.

Lemma NUM_PAT_match_digits s :
    digits_only s = true -> s <> "" -> NUM_PAT_match s = Some s.
  Proof.
    intros H Hne. destruct s as [|c s]; [congruence |].
    assert (Hc : isdigit c = true).
    { unfold digits_only in H. simpl in H.
      apply negb_true_iff, orb_false_iff in H as [Hc _].
      now apply negb_false_iff in Hc. }
    assert (Hgroup : num_group (String c s) = Some (String c s)).
    { unfold num_group. rewrite (span_digits _ H). reflexivity. }
    destruct (digit_facts c Hc) as (_ & _ & _ & _ & Hstar).
    unfold NUM_PAT_match.
    destruct c as [[] [] [] [] [] [] [] []]; try exact Hgroup.
    now contradiction Hstar.
  Qed.

(** A string of digits is left as it is. *)
Lemma norm_cell_digits s : digits_only s = true -> norm_cell s = s.
  Proof.
    intros H. destruct s as [|c0 s0] eqn:Hs; [reflexivity |]. rewrite <- Hs in *.
    assert (Hne : s <> "") by (rewrite Hs; discriminate).
    unfold norm_cell. rewrite (NUM_PAT_match_digits _ H Hne).
    unfold strip.
    rewrite (lstrip_no_space _ (digits_no_space _ H)).
    rewrite (rstrip_no_space _ (digits_no_space _ H)).
    rewrite (replace_digits "," "." s H eq_refl).
    rewrite (replace_digits " " "" s H eq_refl).
    assert (Hw : word s) by (split; [assumption | now apply digits_no_space]).
    rewrite <- (append_empty_r s) at 1.
    rewrite split_word_append by (assumption || exact I).
    reflexivity.
  Qed.

End CellNormalizerFacts.

(** C5, as amended.  Normalizing a normalized cell gives the same value when
    the normalized cell is out of reach of the numeric pattern (no match) or is
    made of decimal digits only. *)
Theorem norm_cell_idempotent_when_stable (s : string) :
  NUM_PAT_match (norm_cell s) = None \/ digits_only (norm_cell s) = true ->
  norm_cell (norm_cell s) = norm_cell s.
Proof.
  intros [Hnone | Hdigits].
  - unfold norm_cell at 1. rewrite Hnone.
    unfold norm_cell. apply collapse_idempotent.
  - now apply norm_cell_digits.
Qed.

Lemma norm_cell_idempotent_when_stable_witness :
  (NUM_PAT_match (norm_cell "1 234") = None \/ digits_only (norm_cell "1 234") = true)
  /\ norm_cell (norm_cell "1 234") = norm_cell "1 234".
Proof.
  split.
  - right. reflexivity.
  - apply (norm_cell_idempotent_when_stable "1 234"). right. reflexivity.
Defined.

(** C5, as stated, fails: the decimal point that the first pass writes ends
    the numeric span of the second pass.  [norm_cell "1,5"] is ["1.5"] and
    [norm_cell "1.5"] is ["1"]. *)
Lemma norm_cell_not_idempotent :
  norm_cell "1,5" = "1.5" /\ norm_cell (norm_cell "1,5") = "1"
  /\ norm_cell (norm_cell "1,5") <> norm_cell "1,5".
Proof. vm_compute. repeat split. discriminate. Qed.

(** C6.  The two numeric examples come out as the claim says; the label with
    leading spaces does not: the numeric pattern matches its two leading
    spaces, and the cell is replaced by that span, stripped. *)
Theorem norm_cell_examples :
  norm_cell "1 234,5" = "1234.5"
  /\ norm_cell "*42" = "42"
  /\ norm_cell ("  a   b" ++ String LF " c ") = "".
Proof. repeat split; reflexivity. Qed.

(** Without the leading whitespace the label is only collapsed and trimmed. *)
Example norm_cell_label : norm_cell ("a   b" ++ String LF " c ") = "a b c".
Proof. reflexivity. Qed.

(** ** Computations *)

Lemma bind_Ok {A B} (c : M A) (k : A -> M B) w a w1 :
  c w = Ok a w1 -> bind c k w = k a w1.
Proof. unfold bind. now intros ->. Qed.

Lemma bind_Raise {A B} (c : M A) (k : A -> M B) w e w1 :
  c w = Raise e w1 -> bind c k w = Raise e w1.
Proof. unfold bind. now intros ->. Qed.

Lemma bind_Ok_inv {A B} (c : M A) (k : A -> M B) w b w2 :
  bind c k w = Ok b w2 -> exists a w1, c w = Ok a w1 /\ k a w1 = Ok b w2.
Proof.
  unfold bind. destruct (c w) as [a w1 | e w1]; [| discriminate].
  intros H. now exists a, w1.
Qed.

(** A loop stops at the first turn that raises. *)
Lemma for_each_raise {A} (before after : list A) (x : A) (body : A -> M unit) w w1 e w2 :
  for_each before body w = Ok tt w1 ->
  body x w1 = Raise e w2 ->
  for_each (before ++ x :: after)%list body w = Raise e w2.
Proof.
  revert w. induction before as [|y before IH]; intros w Hbefore Hx.
  - injection Hbefore as <-. simpl. now apply bind_Raise.
  - simpl in Hbefore |- *. apply bind_Ok_inv in Hbefore as ([] & w' & Hy & Hrest).
    rewrite (bind_Ok _ _ _ _ _ Hy). now apply IH.
Qed.

(** ** Versioned store *)

Lemma isfile_spec path w :
  os_path_isfile path w = Ok (bool_decide (is_Some (names w !! path))) w.
Proof. reflexivity. Qed.

Lemma open_write_existing path data ino w :
  names w !! path = Some ino ->
  open_write path data w = Ok tt (written path ino data w).
Proof. intros Hname. unfold open_write. now rewrite Hname. Qed.

Lemma open_write_new path data w :
  names w !! path = None ->
  parent_dir_exists w path = true ->
  open_write path data w = Ok tt (written path (fresh_inode w) data w).
Proof. intros Hname Hdir. unfold open_write. now rewrite Hname, Hdir. Qed.

Lemma open_write_no_dir path data w :
  names w !! path = None ->
  parent_dir_exists w path = false ->
  open_write path data w = Raise (FileNotFoundError path) w.
Proof. intros Hname Hdir. unfold open_write. now rewrite Hname, Hdir. Qed.

(** What [open_write] can do: write on some inode, or raise for a missing
    directory and leave the world as it is. *)
Lemma open_write_cases path data w :
  (exists ino, open_write path data w = Ok tt (written path ino data w))
  \/ (open_write path data w = Raise (FileNotFoundError path) w
      /\ names w !! path = None /\ parent_dir_exists w path = false).
Proof.
  unfold open_write. destruct (names w !! path) as [ino|]; [eauto |].
  destruct (parent_dir_exists w path); eauto.
Qed.

Lemma written_read path ino data w :
  read_file (written path ino data w) path = Some data.
Proof.
  unfold written, read_file, content_of. simpl.
  rewrite lookup_insert_eq. simpl. now rewrite lookup_insert_eq.
Qed.

Lemma open_write_Ok_read path data w w' :
  open_write path data w = Ok tt w' -> read_file w' path = Some data.
Proof.
  destruct (open_write_cases path data w) as [[ino ->] | [-> _]]; [| discriminate].
  intros [= <-]. apply written_read.
Qed.


(** A save that succeeds leaves the payload in the file. *)
Lemma save_df_Ok_read filename data w w1 :
  save_df filename data w = Ok tt w1 -> read_file w1 filename = Some data.
Proof.
  unfold save_df. intros H.
  apply bind_Ok_inv in H as (present & w' & _ & H).
  apply bind_Ok_inv in H as ([] & w'' & _ & H).
  now apply open_write_Ok_read in H.
Qed.




(** The backup of [backup] is a hard link, and [open(filename, 'wb')]
    rewrites the file in place: after a save over a file that was there, the
    time-tagged name reads the new payload as well. *)
Example save_df_backup_shares_inode :
  read_file (world_of (save_df "data/sources/data_qc.csv" "hello, world" saved_world))
    "data/sources/data_qc-2020-04-01T12:00:00.0.csv" = Some "hello, world"
  /\ events (world_of (save_df "data/sources/data_qc.csv" "hello, world" saved_world))
     = [Wrote "data/sources/data_qc.csv" "hello";
        Linked "data/sources/data_qc.csv" "data/sources/data_qc-2020-04-01T12:00:00.0.csv";
        Wrote "data/sources/data_qc.csv" "hello, world"].
Proof. split; vm_compute; reflexivity. Qed.

(** C2.  After a successful save of [b1], saving a shorter [b2] to the same
    path raises the [ValueError] of the size test and leaves the world as it
    was: the file still holds [b1], no link is made, nothing is written. *)
Theorem save_df_rejects_smaller (path b1 b2 : string) (w w1 : world) :
  String.length b2 < String.length b1 ->
  save_df path b1 w = Ok tt w1 ->
  save_df path b2 w1 = Raise (ValueError_smaller path) w1
  /\ read_file w1 path = Some b1.
Proof.
  intros Hlen Hsave.
  pose proof (save_df_Ok_read _ _ _ _ Hsave) as Hread.
  split; [| exact Hread].
  assert (Hfile : is_Some (names w1 !! path)).
  { unfold read_file in Hread. destruct (names w1 !! path); [eauto | discriminate]. }
  assert (Hsize : os_path_getsize path w1 = Ok (String.length b1) w1).
  { unfold os_path_getsize. now rewrite Hread. }
  apply Nat.ltb_lt in Hlen.
  unfold save_df.
  rewrite (bind_Ok _ _ _ _ _ (isfile_spec path w1)).
  rewrite bool_decide_eq_true_2 by exact Hfile.
  apply bind_Raise. rewrite (bind_Ok _ _ _ _ _ Hsize).
  now rewrite Hlen.
Qed.


Lemma save_df_rejects_smaller_witness :
  String.length "hi" < String.length "hello"
  /\ save_df "data/sources/data_qc.csv" "hello" empty_world = Ok tt saved_world
  /\ save_df "data/sources/data_qc.csv" "hi" saved_world
     = Raise (ValueError_smaller "data/sources/data_qc.csv") saved_world
  /\ read_file saved_world "data/sources/data_qc.csv" = Some "hello".
Proof.
  assert (Hlen : String.length "hi" < String.length "hello") by (simpl; lia).
  assert (Hsave : save_df "data/sources/data_qc.csv" "hello" empty_world = Ok tt saved_world)
    by reflexivity.
  split; [exact Hlen |]. split; [exact Hsave |].
  exact (save_df_rejects_smaller _ "hello" "hi" empty_world saved_world Hlen Hsave).
Defined.

(** ** HTML table extractor *)

Section ExtractorFacts.

Variable soup : string -> list table.

Ltac world_simpl :=
  cbn [names dirs inodes ofds flocks time_tags ticks net events set_names set_inodes
       set_ofds set_flocks set_ticks set_net log_event written world_of negb].

Lemma backup_absent filename w :
  names w !! filename = None -> backup filename w = Ok tt w.
Proof.
  intros Hnone. unfold backup.
  rewrite (bind_Ok _ _ _ _ _ (isfile_spec filename w)).
  rewrite bool_decide_eq_false_2 by (rewrite Hnone; intros [? ?]; discriminate).
  reflexivity.
Qed.

Lemma backup_present filename ino w :
  names w !! filename = Some ino ->
  let dst := backup_name filename (time_tags w (ticks w)) in
  backup filename w =
    match names w !! dst with
    | Some _ => Raise (FileExistsError dst) (set_ticks S w)
    | None => Ok tt (log_event (Linked filename dst)
                       (set_names <[dst := ino]> (set_ticks S w)))
    end.
Proof.
  intros Hsome dst. unfold backup.
  rewrite (bind_Ok _ _ _ _ _ (isfile_spec filename w)).
  rewrite bool_decide_eq_true_2 by (rewrite Hsome; eauto).
  cbn [negb]. unfold bind, utcnow_isoformat, os_link.
  subst dst. unfold backup_name.
  destruct (os_path_splitext filename) as [base ext].
  cbn [names set_ticks]. rewrite Hsome. reflexivity.
Qed.




Lemma writes_app evs1 evs2 : writes (evs1 ++ evs2) = (writes evs1 ++ writes evs2)%list.
Proof.
  induction evs1 as [|[] evs1 IH]; cbn; [reflexivity | | f_equal |]; exact IH.
Qed.




End ExtractorFacts.

(** *** What the extraction leaves in the files *)

Section ExtractionReady.

Ltac world_simpl :=
  cbn [names dirs inodes ofds flocks time_tags ticks net events set_names set_inodes
       set_ofds set_flocks set_ticks set_net log_event written world_of negb].






End ExtractionReady.

(** *** The files of the schema *)













(** ** Remote fetcher *)

Section FetcherFacts.

Context {unicode : Type}.
Variable decode : string -> string -> option unicode.
Variable encode : unicode -> string.

Lemma normalize_encoding_world data ctype w :
    world_of (normalize_encoding decode encode data ctype w) = w.
  Proof. unfold normalize_encoding. now destruct (decode _ data). Qed.

(** [fetch] sends one request and hands the body of the response to
    [normalize_encoding], whatever the status. *)
Lemma fetch_first_response url w resp rest :
    net w !! url = Some (resp :: rest) ->
    fetch decode encode url w
    = normalize_encoding decode encode (content resp) (content_type resp)
        (set_net <[url := rest]> (log_event (Requested url) w)).
  Proof.
    intros Hnet.
    assert (Hget : requests_get url w
                   = Ok resp (set_net <[url := rest]> (log_event (Requested url) w))).
    { unfold requests_get. cbn [net log_event]. now rewrite Hnet. }
    unfold fetch. change (seq 0 NB_RETRIES) with [0; 1; 2]. cbn [for_return].
    unfold bind at 1. unfold bind at 1. rewrite Hget.
    assert (Hskip : forall w',
               (if negb (status_code resp =? 200)%nat then next_ else ret tt) w' = Ok tt w').
    { intros w'. now destruct (negb _). }
    unfold bind at 1. rewrite Hskip.
    unfold bind, normalize_encoding.
    now destruct (decode _ (content resp)).
  Qed.

(** With no response at all, the request raises and so does [fetch]. *)
Lemma fetch_no_response url w :
    net w !! url = None \/ net w !! url = Some [] ->
    fetch decode encode url w = Raise (ConnectionError url) (log_event (Requested url) w).
  Proof.
    intros Hnet.
    assert (Hget : @requests_get url w
                   = Raise (ConnectionError url) (log_event (Requested url) w)).
    { unfold requests_get. cbn [net log_event]. now destruct Hnet as [-> | ->]. }
    unfold fetch. change (seq 0 NB_RETRIES) with [0; 1; 2]. cbn [for_return].
    unfold bind at 1. unfold bind at 1. now rewrite Hget.
  Qed.

(** X12. [fetch] never raises the [RuntimeError] that follows its loop: the
    failure after the retries is out of reach. *)
Lemma fetch_never_RuntimeError url w url' w' :
    fetch decode encode url w <> Raise (RuntimeError url') w'.
  Proof.
    destruct (net w !! url) as [[|resp rest]|] eqn:Hnet.
    - rewrite fetch_no_response by auto. discriminate.
    - rewrite (fetch_first_response _ _ _ _ Hnet).
      unfold normalize_encoding. now destruct (decode _ (content resp)).
    - rewrite fetch_no_response by auto. discriminate.
  Qed.

End FetcherFacts.

(** C3.  What [fetch] does on the two stubs of the claim.  On the source that
    fails twice and then answers, it returns the body of the first, failed,
    response after one request.  On the source that always fails, it returns
    the body of the first failed response after one request and raises
    nothing. *)
Theorem fetch_returns_first_attempt :
  (let r := fetch ascii_decode ascii_encode flaky_url unreliable_world in
   r = Ok "Internal Server Error" (world_of r)
   /\ requests (events (world_of r)) = [flaky_url])
  /\ (let r := fetch ascii_decode ascii_encode down_url unreliable_world in
      r = Ok "down 1" (world_of r)
      /\ requests (events (world_of r)) = [down_url]).
Proof. repeat split; vm_compute; reflexivity. Qed.

(** ** Orchestrator *)

(** C4, as amended.  In a run that is not local, an exception raised while one
    source is fetched or saved ends [main] with that exception, in the world of
    the failure: the sources after it are not fetched and the extraction is not
    run. *)
Theorem main_source_failure_aborts {unicode : Type}
    (decode : string -> string -> option unicode) (encode : unicode -> string)
    (soup : string -> list table) (pid : nat) (data_dir : string)
    (before after : list (string * string)) (entry : string * string)
    (e : exception) (w w0 w1 w2 : world) :
  SOURCES = (before ++ entry :: after)%list ->
  lock pid data_dir w = Ok tt w0 ->
  for_each before (refresh_source decode encode data_dir) w0 = Ok tt w1 ->
  refresh_source decode encode data_dir entry w1 = Raise e w2 ->
  main decode encode soup pid data_dir false w = Raise e w2.
Proof.
  intros Hsources Hlock Hbefore Hentry.
  unfold main. rewrite (bind_Ok _ _ _ _ _ Hlock). cbn [negb].
  apply bind_Raise. rewrite Hsources.
  now apply for_each_raise with (w1 := w1).
Qed.

Lemma main_source_failure_aborts_witness :
  SOURCES = ([("data_mtl.html", "https://santemontreal.qc.ca/population/coronavirus-covid-19/")]
             ++ ("data_qc.csv", "https://www.inspq.qc.ca/sites/default/files/covid/donnees/combine.csv")
             :: [("data_qc_case_by_network.csv", "https://www.inspq.qc.ca/sites/default/files/covid/donnees/tableau-rls.csv");
                 ("data_qc_death_loc_by_reg.csv", "https://www.inspq.qc.ca/sites/default/files/covid/donnees/tableau-rpa.csv")])%list
  /\ main ascii_decode ascii_encode soup_4 1 "data" false stale_source_world
     = Raise (ValueError_smaller "data/sources/data_qc.csv")
         (world_of (main ascii_decode ascii_encode soup_4 1 "data" false stale_source_world)).
Proof.
  split; [reflexivity |].
  eapply (main_source_failure_aborts ascii_decode ascii_encode soup_4 1 "data"
            [("data_mtl.html", "https://santemontreal.qc.ca/population/coronavirus-covid-19/")]
            _ ("data_qc.csv", _) _ stale_source_world
            (world_of (lock 1 "data" stale_source_world))
            (world_of (for_each (take 1 SOURCES)
                         (refresh_source ascii_decode ascii_encode "data")
                         (world_of (lock 1 "data" stale_source_world))))).
  - reflexivity.
  - vm_compute. reflexivity.
  - vm_compute. reflexivity.
  - vm_compute. reflexivity.
Defined.

(** C4, as stated, fails.  Every source answers; the answer for the second one
    is shorter than its cached file.  [main] ends with the [ValueError] of
    [save_df]: two requests were sent, none to the last two sources, and the
    only files written are the lock file and the first source. *)
Lemma main_aborts_on_stale_source :
  raised (main ascii_decode ascii_encode soup_4 1 "data" false stale_source_world)
  = Some (ValueError_smaller "data/sources/data_qc.csv")
  /\ requests (events (world_of (main ascii_decode ascii_encode soup_4 1 "data" false
                                  stale_source_world)))
     = ["https://santemontreal.qc.ca/population/coronavirus-covid-19/";
        "https://www.inspq.qc.ca/sites/default/files/covid/donnees/combine.csv"]
  /\ writes (events (world_of (main ascii_decode ascii_encode soup_4 1 "data" false
                                stale_source_world)))
     = [("data/scraper.pid", ""); ("data/scraper.pid", "<built-in function getpid>");
        ("data/sources/data_mtl.html", "<html/>")].
Proof. repeat split; vm_compute; reflexivity. Qed.

(** ** Run lock *)

Section LockFacts.

Variable lock_dir : string.

Abbreviation lockf := (lock_path lock_dir).

Ltac world_simpl :=
    cbn [names dirs inodes ofds flocks time_tags ticks net events set_names set_inodes
         set_ofds set_flocks set_ticks set_net log_event written world_of negb].

Lemma fresh_fd_not_open (w : world) : ofds w !! fresh (dom (ofds w)) = None.
  Proof. apply not_elem_of_dom, is_fresh. Qed.

(** [lock] from the call of [os.open] on, once the lock file is there. *)
Lemma lock_from_open pid w ino :
    names w !! lockf = Some ino ->
    let fd := fresh (dom (ofds w)) in
    let w1 := set_ofds <[fd := (pid, ino)]> w in
    (os_open pid lockf w = Ok fd w1)
    /\ match flocks w !! ino with
       | None =>
           flock_EX_NB fd w1 = Ok tt (set_flocks <[ino := fd]> w1)
       | Some holder =>
           flock_EX_NB fd w1
           = if decide (holder = fd) then Ok tt w1 else Raise BlockingIOError w1
       end.
  Proof.
    intros Hname fd w1. split.
    - unfold os_open. now rewrite Hname.
    - unfold flock_EX_NB. subst w1. cbn [ofds set_ofds flocks].
      rewrite lookup_insert_eq. now destruct (flocks w !! ino).
  Qed.

(** The file is there when [os.open] is reached, unless it could not be
    made for want of its directory. *)
Lemma lock_prepare w :
    (exists w0 ino,
       (present <- os_path_isfile lockf ;;
        (if negb present then open_write lockf "" else ret tt)) w = Ok tt w0
       /\ names w0 !! lockf = Some ino
       /\ ofds w0 = ofds w /\ flocks w0 = flocks w
       /\ (forall i, names w !! lockf = Some i -> w0 = w))
    \/ (names w !! lockf = None
        /\ parent_dir_exists w lockf = false
        /\ (present <- os_path_isfile lockf ;;
            (if negb present then open_write lockf "" else ret tt)) w
           = Raise (FileNotFoundError lockf) w).
  Proof.
    rewrite (bind_Ok _ _ _ _ _ (isfile_spec lockf w)).
    destruct (names w !! lockf) as [ino|] eqn:Hname.
    - left. rewrite bool_decide_eq_true_2 by eauto. exists w, ino. world_simpl. auto.
    - rewrite bool_decide_eq_false_2 by (intros [? ?]; discriminate).
      cbn [negb].
      destruct (parent_dir_exists w lockf) eqn:Hdir.
      + left. rewrite (open_write_new lockf "" w Hname Hdir).
        eexists _, _. split; [reflexivity |]. world_simpl.
        rewrite lookup_insert_eq. repeat split. intros i; discriminate.
      + right. now rewrite (open_write_no_dir lockf "" w Hname Hdir).
  Qed.

Lemma lock_unfold pid w w0 :
    (present <- os_path_isfile lockf ;;
     (if negb present then open_write lockf "" else ret tt)) w = Ok tt w0 ->
    lock pid lock_dir w
    = (fd <- os_open pid lockf ;;
       flock_EX_NB fd ;;
       open_write lockf (locale_encode (format os_getpid))) w0.
  Proof.
    intros Hprep. unfold lock. fold (lock_path lock_dir).
    unfold bind in Hprep |- *.
    destruct (os_path_isfile lockf w) as [present w'|]; [| discriminate].
    destruct ((if negb present then open_write lockf "" else ret tt) w')
      as [[] w''|]; [| discriminate].
    now injection Hprep as ->.
  Qed.

Lemma lock_unfold_raise pid w e w0 :
    (present <- os_path_isfile lockf ;;
     (if negb present then open_write lockf "" else ret tt)) w = Raise e w0 ->
    lock pid lock_dir w = Raise e w0.
  Proof.
    intros Hprep. unfold lock. fold (lock_path lock_dir).
    unfold bind in Hprep |- *.
    destruct (os_path_isfile lockf w) as [present w'|]; [| exact Hprep].
    destruct ((if negb present then open_write lockf "" else ret tt) w')
      as [[] w''|]; [discriminate | exact Hprep].
  Qed.

(** A successful [lock] leaves the lock held by the calling process, and
    the string form of [os.getpid] in the lock file. *)
Lemma lock_Ok_held pid w w1 :
    lock pid lock_dir w = Ok tt w1 ->
    held_by lock_dir pid w1 /\ read_file w1 lockf = Some (locale_encode (format os_getpid)).
  Proof.
    intros Hlock.
    destruct (lock_prepare w) as [(w0 & ino & Hprep & Hname & _) | (_ & _ & Hprep)].
    2:{ rewrite (lock_unfold_raise pid w _ _ Hprep) in Hlock. discriminate. }
    rewrite (lock_unfold pid w w0 Hprep) in Hlock.
    destruct (lock_from_open pid w0 ino Hname) as [Hopen Hflock]. cbv zeta in *.
    rewrite (bind_Ok _ _ _ _ _ Hopen) in Hlock.
    set (fd := fresh (dom (ofds w0))) in *.
    set (wo := set_ofds <[fd := (pid, ino)]> w0) in *.
    assert (Hacq : exists wl, flock_EX_NB fd wo = Ok tt wl
                              /\ names wl = names w0
                              /\ flocks wl !! ino = Some fd
                              /\ ofds wl = <[fd := (pid, ino)]> (ofds w0)).
    { destruct (flocks w0 !! ino) as [holder|] eqn:Hholder.
      - destruct (decide (holder = fd)) as [-> | Hne].
        + exists wo. repeat split; auto.
        + rewrite (bind_Raise _ _ _ _ _ Hflock) in Hlock. discriminate.
      - eexists. split; [exact Hflock |]. world_simpl. rewrite lookup_insert_eq. auto. }
    destruct Hacq as (wl & Hacq & Hnames & Hheld & Hofds).
    rewrite (bind_Ok _ _ _ _ _ Hacq) in Hlock.
    rewrite (open_write_existing lockf _ ino wl) in Hlock by (now rewrite Hnames).
    injection Hlock as <-. split; [| apply written_read].
    exists ino, fd. world_simpl.
    rewrite lookup_insert_eq, Hheld, Hofds, lookup_insert_eq. auto.
  Qed.

(** While the lock is held, [lock] raises at [flock]; the attempt leaves an
    open file description behind and the lock where it was. *)
Lemma lock_held_raises pid w :
    held lock_dir w ->
    exists w2,
      lock pid lock_dir w = Raise BlockingIOError w2
      /\ names w2 = names w /\ flocks w2 = flocks w
      /\ forall fd d, ofds w !! fd = Some d -> ofds w2 !! fd = Some d.
  Proof.
    intros (ino & holder & owner & Hname & Hholder & Hopenfd).
    destruct (lock_prepare w) as [(w0 & ino' & Hprep & _ & _ & _ & Hsame) | (Hnone & _)];
      [| congruence].
    rewrite (Hsame ino Hname) in Hprep. clear Hsame ino'.
    rewrite (lock_unfold pid w w Hprep).
    destruct (lock_from_open pid w ino Hname) as [Hopen Hflock]. cbv zeta in *.
    rewrite Hholder in Hflock.
    rewrite (bind_Ok _ _ _ _ _ Hopen).
    destruct (decide (holder = fresh (dom (ofds w)))) as [Heq | Hne].
    { pose proof (fresh_fd_not_open w) as Hfresh. rewrite <- Heq in Hfresh. congruence. }
    eexists. split; [apply bind_Raise; exact Hflock |].
    world_simpl. repeat split. intros fd d Hfd.
    rewrite lookup_insert_ne; [exact Hfd |].
    intros <-. rewrite fresh_fd_not_open in Hfd. discriminate.
  Qed.

(** When the process that holds the lock ends, the lock is free. *)
Lemma process_exit_frees pid w :
    held_by lock_dir pid w ->
    exists ino,
      names (process_exit pid w) !! lockf = Some ino
      /\ flocks (process_exit pid w) !! ino = None.
  Proof.
    intros (ino & fd & Hname & Hholder & Hopenfd).
    exists ino. split; [exact Hname |].
    unfold process_exit. world_simpl.
    apply map_lookup_filter_None. right. intros fd' Hfd'.
    rewrite Hholder in Hfd'. injection Hfd' as <-. cbn [snd].
    rewrite Hopenfd. rewrite bool_decide_eq_true_2 by reflexivity. discriminate.
  Qed.

(** A free lock is taken. *)
Lemma lock_free_Ok pid w ino :
    names w !! lockf = Some ino ->
    flocks w !! ino = None ->
    exists w1, lock pid lock_dir w = Ok tt w1.
  Proof.
    intros Hname Hfree.
    destruct (lock_prepare w) as [(w0 & ino' & Hprep & _ & _ & _ & Hsame) | (Hnone & _)];
      [| congruence].
    rewrite (Hsame ino Hname) in Hprep. clear Hsame ino'.
    rewrite (lock_unfold pid w w Hprep).
    destruct (lock_from_open pid w ino Hname) as [Hopen Hflock]. cbv zeta in *.
    rewrite Hfree in Hflock.
    rewrite (bind_Ok _ _ _ _ _ Hopen), (bind_Ok _ _ _ _ _ Hflock).
    rewrite (open_write_existing lockf _ ino) by exact Hname.
    eauto.
  Qed.

Lemma held_by_held pid w : held_by lock_dir pid w -> held lock_dir w.
  Proof. intros (ino & fd & H). exists ino, fd, pid. exact H. Qed.

End LockFacts.

(** The decimal form of a number does not start with an angle bracket. *)
Lemma pretty_N_go_not_bracket (x : N) (s s' : string) :
  s <> String "<" s' -> pretty_N_go x s <> String "<" s'.
Proof.
  revert s. induction (N.lt_wf_0 x) as [x _ IH]; intros s Hs.
  destruct (decide (x = 0)%N) as [-> | Hx]; [now rewrite pretty_N_go_0 |].
  rewrite pretty_N_go_step by lia. apply IH; [apply N.div_lt; lia |].
  unfold pretty_N_char. repeat case_match; discriminate.
Qed.

Lemma format_PyInt_not_getpid (n : nat) : format (PyInt n) <> format os_getpid.
Proof.
  change (format os_getpid) with (String "<" "built-in function getpid>").
  unfold format, pretty, pretty_nat, pretty, pretty_N.
  destruct (decide (N.of_nat n = 0%N)); [discriminate |].
  apply pretty_N_go_not_bracket. discriminate.
Qed.

(** C9.  After a successful [lock], a second [lock] on the same directory, by
    any process, raises [BlockingIOError] at once, and the lock stays with the
    first process; once the first process has ended, [lock] succeeds again. *)
Theorem lock_mutual_exclusion (lock_dir : string) (first second third : nat)
    (w w1 : world) :
  lock first lock_dir w = Ok tt w1 ->
  exists w2,
    lock second lock_dir w1 = Raise BlockingIOError w2
    /\ held_by lock_dir first w2
    /\ (exists w3, lock third lock_dir (process_exit first w2) = Ok tt w3)
    /\ (exists w3, lock third lock_dir (process_exit first w1) = Ok tt w3).
Proof.
  intros Hlock.
  destruct (lock_Ok_held lock_dir first w w1 Hlock) as [Hheld _].
  destruct (lock_held_raises lock_dir second w1 (held_by_held _ _ _ Hheld))
    as (w2 & Hraise & Hnames & Hflocks & Hofds).
  assert (Hheld2 : held_by lock_dir first w2).
  { destruct Hheld as (ino & fd & Hname & Hholder & Hfd).
    exists ino, fd. rewrite Hnames, Hflocks. auto. }
  exists w2. split; [exact Hraise |]. split; [exact Hheld2 |]. split.
  - destruct (process_exit_frees lock_dir first w2 Hheld2) as (ino & Hname & Hfree).
    exact (lock_free_Ok lock_dir third _ ino Hname Hfree).
  - destruct (process_exit_frees lock_dir first w1 Hheld) as (ino & Hname & Hfree).
    exact (lock_free_Ok lock_dir third _ ino Hname Hfree).
Qed.

Lemma lock_mutual_exclusion_witness :
  lock 1 "data" empty_world = Ok tt locked_world
  /\ exists w2,
       lock 2 "data" locked_world = Raise BlockingIOError w2
       /\ held_by "data" 1 w2
       /\ (exists w3, lock 3 "data" (process_exit 1 w2) = Ok tt w3)
       /\ (exists w3, lock 3 "data" (process_exit 1 locked_world) = Ok tt w3).
Proof.
  assert (Hlock : lock 1 "data" empty_world = Ok tt locked_world)
    by (vm_compute; reflexivity).
  split; [exact Hlock |].
  exact (lock_mutual_exclusion "data" 1 2 3 empty_world locked_world Hlock).
Defined.

(** C10.  After a successful [lock] the lock file holds the string form of the
    function [os.getpid], whatever the process, and so never the decimal form
    of a process id. *)
Theorem lock_file_content (lock_dir : string) (pid : nat) (w w1 : world) :
  lock pid lock_dir w = Ok tt w1 ->
  read_file w1 (lock_path lock_dir) = Some "<built-in function getpid>"
  /\ forall n : nat, read_file w1 (lock_path lock_dir) <> Some (format (PyInt n)).
Proof.
  intros Hlock.
  destruct (lock_Ok_held lock_dir pid w w1 Hlock) as [_ Hread].
  change (locale_encode (format os_getpid)) with (format os_getpid) in Hread.
  split; [exact Hread |].
  intros n. rewrite Hread. intros [= Heq].
  now apply (format_PyInt_not_getpid n).
Qed.

Lemma lock_file_content_witness :
  lock 1 "data" empty_world = Ok tt locked_world
  /\ read_file locked_world (lock_path "data") = Some "<built-in function getpid>"
  /\ forall n : nat, read_file locked_world (lock_path "data") <> Some (format (PyInt n)).
Proof.
  assert (Hlock : lock 1 "data" empty_world = Ok tt locked_world)
    by (vm_compute; reflexivity).
  split; [exact Hlock |].
  exact (lock_file_content "data" 1 empty_world locked_world Hlock).
Defined.

(** ** Down-sampling of the dashboard *)

Section CoreFacts.

Context {A : Type}.
Implicit Types (df inner out : list A) (d : Z).

Lemma slice_bound_nonneg (n : nat) (i : Z) :
  (0 <= i)%Z -> Core.slice_bound n i = Nat.min n (Z.to_nat i).
Proof. intros Hi. unfold Core.slice_bound. destruct (Z.ltb_spec i 0); lia. Qed.

Lemma slice_bound_minus_one (n : nat) : Core.slice_bound n (-1) = pred n.
Proof. unfold Core.slice_bound. cbn [Z.ltb Z.compare]. lia. Qed.

(** A frame is empty, or has one item, or a first item, inner items and a
    last item. *)
Lemma frame_shape df :
  df = [] \/ (exists x, df = [x]) \/ exists x inner y, df = x :: inner ++ [y].
Proof.
  destruct df as [|x df]; [now left | right].
  destruct (decide (df = [])) as [-> | Hne]; [left; eauto | right].
  destruct (exists_last Hne) as (inner & y & ->). eauto.
Qed.

Lemma iloc_first (x : A) df : Core.iloc (x :: df) 0 = inr x.
Proof. reflexivity. Qed.

Lemma iloc_last df (y : A) : Core.iloc (df ++ [y]) (-1) = inr y.
Proof.
  unfold Core.iloc. cbn [Z.ltb Z.compare].
  rewrite length_app. cbn [length].
  destruct (Z.ltb_spec (-1 + Z.of_nat (length df + 1)) 0) as [Hneg | _]; [lia |].
  replace (Z.to_nat (-1 + Z.of_nat (length df + 1))) with (length df) by lia.
  now rewrite list_lookup_middle.
Qed.

Lemma iloc_empty i : Core.iloc (@nil A) i = inl Core.IndexError.
Proof. unfold Core.iloc. cbn. now destruct (i <? 0)%Z, (_ <? 0)%Z. Qed.

Lemma iloc_slice_init df (y : A) : Core.iloc_slice (df ++ [y]) 0 (-1) = df.
Proof.
  unfold Core.iloc_slice. rewrite slice_bound_minus_one, slice_bound_nonneg by lia.
  rewrite length_app. cbn [length].
  replace (Nat.min (length df + 1) (Z.to_nat 0)) with 0 by lia.
  replace (pred (length df + 1) - 0) with (length df) by lia.
  cbn [drop]. apply take_app_length.
Qed.

Lemma iloc_slice_inner (x : A) inner (y : A) : Core.iloc_slice (x :: inner ++ [y]) 1 (-1) = inner.
Proof.
  unfold Core.iloc_slice. rewrite slice_bound_minus_one, slice_bound_nonneg by lia.
  cbn [length]. rewrite length_app. cbn [length].
  replace (Nat.min (S (length inner + 1)) (Z.to_nat 1)) with 1 by lia.
  replace (pred (S (length inner + 1)) - 1) with (length inner) by lia.
  cbn [drop]. apply take_app_length.
Qed.

Lemma iloc_slice_single (x : A) (a : Z) : (0 <= a)%Z -> Core.iloc_slice [x] a (-1) = [].
Proof.
  intros Ha. unfold Core.iloc_slice.
  rewrite slice_bound_minus_one, slice_bound_nonneg by lia. now cbn.
Qed.

Lemma every_from_sublist (step skip : nat) df :
  Core.every_from step skip df `sublist_of` df.
Proof.
  revert skip. induction df as [|x df IH]; intros skip; [constructor |].
  destruct skip; cbn; [apply sublist_skip | apply sublist_cons]; apply IH.
Qed.

Lemma every_from_length (step skip : nat) df :
  skip < step ->
  length (Core.every_from step skip df) = (length df + (step - 1) - skip) / step.
Proof.
  intros Hskip. revert skip Hskip. induction df as [|x df IH]; intros skip Hskip.
  - cbn. symmetry. apply Nat.div_small. lia.
  - destruct skip as [|skip]; cbn [Core.every_from length].
    + rewrite IH by lia.
      replace (S (length df) + (step - 1) - 0) with (length df + 1 * step) by lia.
      rewrite Nat.div_add by lia.
      replace (length df + (step - 1) - pred step) with (length df) by lia. lia.
    + rewrite IH by lia. f_equal; lia.
Qed.

(** The number of items [iloc[::step]] keeps when [step] is the quotient of
    the length by a positive [downsample] that is at most the length: at least
    [downsample], less than twice [downsample]. *)
Lemma downsampled_length df d :
  (0 < d <= Z.of_nat (length df))%Z ->
  exists picked,
    Core.iloc_step df (Z.of_nat (length df) / d) = inr picked
    /\ picked `sublist_of` df
    /\ (d <= Z.of_nat (length picked) < 2 * d)%Z.
Proof.
  intros [Hd Hn].
  set (n := length df) in *. set (k := Z.to_nat d).
  assert (Hk : d = Z.of_nat k) by lia. rewrite Hk in *. clearbody k. clear Hk d.
  assert (Hk1 : 1 <= k) by lia. assert (Hkn : k <= n) by lia.
  rewrite <- Nat2Z.inj_div.
  assert (Hq : 1 <= n / k) by (apply Nat.div_le_lower_bound; lia).
  unfold Core.iloc_step.
  destruct (Z.eqb_spec (Z.of_nat (n / k)) 0) as [H0 | _]; [lia |].
  destruct (Z.ltb_spec 0 (Z.of_nat (n / k))) as [_ | H0]; [| lia].
  rewrite Nat2Z.id. eexists. split; [reflexivity |].
  split; [apply every_from_sublist |].
  rewrite every_from_length by lia. fold n.
  set (q := n / k) in *.
  pose proof (Nat.div_mod_eq n k) as Hdm.
  pose proof (Nat.mod_upper_bound n k ltac:(lia)) as Hr.
  fold q in Hdm. set (r := n mod k) in *.
  assert (Hlow : k <= (n + (q - 1) - 0) / q).
  { apply Nat.div_le_lower_bound; nia. }
  assert (Hup : (n + (q - 1) - 0) / q < 2 * k).
  { apply Nat.Div0.div_lt_upper_bound. nia. }
  lia.
Qed.

End CoreFacts.

Section CoreResults.

Context {A : Type}.
Implicit Types (df inner out : list A) (d : Z).

Lemma every_from_elem_of (step : nat) df (c : A) :
  c ∈ Core.every_from step 0 df -> c ∈ df.
Proof. intros Hc. eapply elem_of_sublist; [exact Hc | apply every_from_sublist]. Qed.

Lemma every_from_nonempty (step : nat) df :
  df <> [] -> Core.every_from step 0 df <> [].
Proof. destruct df; [congruence | discriminate]. Qed.

(** What [iloc[::step]] picks comes from the frame, and is not empty when the
    frame is not. *)
Lemma iloc_step_picks df (step : Z) picked :
  Core.iloc_step df step = inr picked ->
  (forall c, c ∈ picked -> c ∈ df) /\ (df <> [] -> picked <> []).
Proof.
  unfold Core.iloc_step.
  destruct (step =? 0)%Z; [discriminate |].
  destruct (0 <? step)%Z; intros [= <-]; split.
  - intros c. apply every_from_elem_of.
  - apply every_from_nonempty.
  - intros c Hc. apply every_from_elem_of in Hc.
    apply list_elem_of_In. apply in_rev. now apply list_elem_of_In.
  - intros Hne. apply every_from_nonempty.
    destruct df as [|x df]; [congruence |]. cbn [rev].
    intros Hrev. symmetry in Hrev. now apply app_cons_not_nil in Hrev.
Qed.

End CoreResults.

Section CoreTheorems.

Context {A : Type}.
Implicit Types (df inner out : list A) (d : Z).

(** [reduce_cols] on a frame of at least two columns. *)
Lemma reduce_cols_inner (x : A) inner (y : A) d :
  Core.reduce_cols (x :: inner ++ [y]) d
  = match Core.floordiv (Z.of_nat (length inner)) d with
    | inl e => inl e
    | inr step =>
        match Core.iloc_step inner step with
        | inl e => inl e
        | inr picked => inr (x :: picked ++ [y])%list
        end
    end.
Proof.
  unfold Core.reduce_cols.
  rewrite iloc_first, app_comm_cons, iloc_last, <- app_comm_cons, iloc_slice_inner.
  reflexivity.
Qed.

(** [reduce_rows] on a frame whose rows with age data are [kept ++ [y]]. *)
Lemma reduce_rows_inner (p : A -> bool) df kept (y : A) d :
  List.filter p df = (kept ++ [y])%list ->
  Core.reduce_rows (Some p) df d
  = match Core.floordiv (Z.of_nat (length kept)) d with
    | inl e => inl e
    | inr step =>
        match Core.iloc_step kept step with
        | inl e => inl e
        | inr picked => inr (picked ++ [y])%list
        end
    end.
Proof.
  intros Hkept. unfold Core.reduce_rows. rewrite Hkept.
  rewrite iloc_last, iloc_slice_init. reflexivity.
Qed.

(** [reduce_cols] on a frame of one column. *)
Lemma reduce_cols_single (x : A) d :
  Core.reduce_cols [x] d
  = inl (if (d =? 0)%Z then Core.ZeroDivisionError else Core.ValueError_slice_step).
Proof.
  unfold Core.reduce_cols.
  rewrite iloc_first, (iloc_last [] x : Core.iloc [x] (-1) = inr x).
  rewrite iloc_slice_single by lia. unfold Core.floordiv.
  destruct (d =? 0)%Z; [reflexivity |]. cbn [length Z.of_nat].
  now rewrite Zdiv_0_l.
Qed.

(** X1. When [reduce_cols] returns, the frame had a title column, inner
    columns and a latest column; the result is the title column, columns
    picked among the inner ones, at least one, and the latest column. *)
Theorem reduce_cols_keeps_title_and_latest df d out :
  Core.reduce_cols df d = inr out ->
  exists title inner latest picked,
    df = title :: inner ++ [latest]
    /\ out = title :: picked ++ [latest]
    /\ picked <> []
    /\ forall c, c ∈ picked -> c ∈ inner.
Proof.
  destruct (frame_shape df) as [-> | [[x ->] | (x & inner & y & ->)]].
  - discriminate.
  - rewrite reduce_cols_single. discriminate.
  - rewrite reduce_cols_inner.
    destruct inner as [|c inner].
    { unfold Core.floordiv. destruct (d =? 0)%Z; [discriminate |].
      cbn [length Z.of_nat]. rewrite Zdiv_0_l. discriminate. }
    destruct (Core.floordiv _ d) as [e | step]; [discriminate |].
    destruct (Core.iloc_step (c :: inner) step) as [e | picked] eqn:Hstep; [discriminate |].
    intros [= <-]. exists x, (c :: inner), y, picked.
    destruct (iloc_step_picks _ _ _ Hstep) as [Hfrom Hne].
    repeat split; [apply Hne; discriminate | exact Hfrom].
Qed.

Lemma filter_sublist (p : A -> bool) df : List.filter p df `sublist_of` df.
Proof.
  induction df as [|x df IH]; [constructor |].
  cbn. destruct (p x); [now apply sublist_skip | now apply sublist_cons].
Qed.

(** X2. With a positive [downsample] and at least [downsample + 2] columns,
    [reduce_cols] returns columns of the frame in their order, at least
    [downsample + 2] of them and at most [2 * downsample + 1]. *)
Theorem reduce_cols_column_count df d :
  (0 < d)%Z ->
  (d + 2 <= Z.of_nat (length df))%Z ->
  exists out,
    Core.reduce_cols df d = inr out
    /\ out `sublist_of` df
    /\ (d + 2 <= Z.of_nat (length out) < 2 * d + 2)%Z.
Proof.
  intros Hd Hlen.
  destruct (frame_shape df) as [-> | [[x ->] | (x & inner & y & ->)]];
    [cbn in Hlen; lia | cbn in Hlen; lia |].
  cbn [length] in Hlen. rewrite length_app in Hlen. cbn [length] in Hlen.
  destruct (downsampled_length inner d ltac:(lia)) as (picked & Hstep & Hsub & Hcount).
  rewrite reduce_cols_inner. unfold Core.floordiv.
  destruct (Z.eqb_spec d 0) as [-> | _]; [lia |].
  rewrite Hstep. eexists. split; [reflexivity |]. split.
  - apply sublist_skip. apply sublist_app; [exact Hsub | reflexivity].
  - cbn [length]. rewrite length_app. cbn [length]. lia.
Qed.

(** X3. With fewer than [downsample + 2] columns, or a [downsample] of zero,
    [reduce_cols] raises: [IndexError] on a frame without column,
    [ZeroDivisionError] for a [downsample] of zero, and otherwise the
    [ValueError] of a slice step of zero. *)
Theorem reduce_cols_too_few_columns df d :
  (0 <= d)%Z ->
  (Z.of_nat (length df) < d + 2)%Z \/ d = 0%Z ->
  Core.reduce_cols df d
  = inl match df with
        | [] => Core.IndexError
        | _ => if (d =? 0)%Z then Core.ZeroDivisionError
               else Core.ValueError_slice_step
        end.
Proof.
  intros Hd Hfew.
  destruct (frame_shape df) as [-> | [[x ->] | (x & inner & y & ->)]].
  - reflexivity.
  - apply reduce_cols_single.
  - rewrite reduce_cols_inner. unfold Core.floordiv.
    destruct (Z.eqb_spec d 0) as [-> | Hd0]; [reflexivity |].
    destruct Hfew as [Hfew | ->]; [| congruence].
    cbn [length] in Hfew. rewrite length_app in Hfew. cbn [length] in Hfew.
    rewrite Z.div_small by lia. reflexivity.
Qed.

(** X4. When [reduce_rows] returns, the result ends with the last row that
    has age data, after at least one row picked before it; every row of the
    result is a row of the frame with age data. *)
Theorem reduce_rows_keeps_latest (has_age_data : A -> bool) df d out :
  Core.reduce_rows (Some has_age_data) df d = inr out ->
  exists kept latest picked,
    List.filter has_age_data df = (kept ++ [latest])%list
    /\ out = (picked ++ [latest])%list
    /\ picked <> []
    /\ forall r, r ∈ out -> r ∈ df /\ has_age_data r = true.
Proof.
  destruct (List.filter has_age_data df) as [|r0 kept0] eqn:Hfilter.
  { unfold Core.reduce_rows. rewrite Hfilter, iloc_empty. discriminate. }
  destruct (exists_last (l := r0 :: kept0) ltac:(discriminate)) as (kept & y & Hshape).
  rewrite Hshape in Hfilter.
  rewrite (reduce_rows_inner _ _ _ _ _ Hfilter).
  destruct kept as [|c kept].
  { unfold Core.floordiv. destruct (d =? 0)%Z; [discriminate |].
    cbn [length Z.of_nat]. rewrite Zdiv_0_l. discriminate. }
  destruct (Core.floordiv _ d) as [e | step]; [discriminate |].
  destruct (Core.iloc_step (c :: kept) step) as [e | picked] eqn:Hstep; [discriminate |].
  intros [= <-]. exists (c :: kept), y, picked.
  destruct (iloc_step_picks _ _ _ Hstep) as [Hfrom Hne].
  split; [exact Hshape |]. split; [reflexivity |].
  split; [apply Hne; discriminate |].
  intros r Hr.
  assert (Hin : r ∈ List.filter has_age_data df).
  { rewrite Hfilter. apply elem_of_app in Hr as [Hr | Hr]; apply elem_of_app; auto. }
  apply list_elem_of_In, filter_In in Hin as [Hin Hage].
  split; [now apply list_elem_of_In | exact Hage].
Qed.

(** X5. With a positive [downsample] and at least [downsample + 1] rows with
    age data, [reduce_rows] returns rows of the frame in their order, at least
    [downsample + 1] of them and at most [2 * downsample]. *)
Theorem reduce_rows_row_count (has_age_data : A -> bool) df d :
  (0 < d)%Z ->
  (d + 1 <= Z.of_nat (length (List.filter has_age_data df)))%Z ->
  exists out,
    Core.reduce_rows (Some has_age_data) df d = inr out
    /\ out `sublist_of` df
    /\ (d + 1 <= Z.of_nat (length out) < 2 * d + 1)%Z.
Proof.
  intros Hd Hlen.
  destruct (List.filter has_age_data df) as [|r0 kept0] eqn:Hfilter;
    [cbn in Hlen; lia |].
  destruct (exists_last (l := r0 :: kept0) ltac:(discriminate)) as (kept & y & Hshape).
  rewrite Hshape in Hfilter, Hlen. rewrite length_app in Hlen. cbn [length] in Hlen.
  destruct (downsampled_length kept d ltac:(lia)) as (picked & Hstep & Hsub & Hcount).
  rewrite (reduce_rows_inner _ _ _ _ _ Hfilter). unfold Core.floordiv.
  destruct (Z.eqb_spec d 0) as [-> | _]; [lia |].
  rewrite Hstep. eexists. split; [reflexivity |]. split.
  - transitivity (kept ++ [y])%list.
    + apply sublist_app; [exact Hsub | reflexivity].
    + rewrite <- Hfilter. apply filter_sublist.
  - rewrite length_app. cbn [length]. lia.
Qed.

(** X6. With fewer than [downsample + 1] rows with age data, or a
    [downsample] of zero, [reduce_rows] raises: [IndexError] when no row has
    age data, [ZeroDivisionError] for a [downsample] of zero, and otherwise
    the [ValueError] of a slice step of zero. *)
Theorem reduce_rows_too_few_rows (has_age_data : A -> bool) df d :
  (0 <= d)%Z ->
  (Z.of_nat (length (List.filter has_age_data df)) < d + 1)%Z \/ d = 0%Z ->
  Core.reduce_rows (Some has_age_data) df d
  = inl match List.filter has_age_data df with
        | [] => Core.IndexError
        | _ => if (d =? 0)%Z then Core.ZeroDivisionError
               else Core.ValueError_slice_step
        end.
Proof.
  intros Hd Hfew.
  destruct (List.filter has_age_data df) as [|r0 kept0] eqn:Hfilter.
  { unfold Core.reduce_rows. now rewrite Hfilter, iloc_empty. }
  destruct (exists_last (l := r0 :: kept0) ltac:(discriminate)) as (kept & y & Hshape).
  rewrite Hshape in Hfilter, Hfew. rewrite length_app in Hfew. cbn [length] in Hfew.
  rewrite (reduce_rows_inner _ _ _ _ _ Hfilter). unfold Core.floordiv.
  destruct (Z.eqb_spec d 0) as [-> | Hd0]; [reflexivity |].
  destruct Hfew as [Hfew | ->]; [| congruence].
  rewrite Z.div_small by lia. reflexivity.
Qed.

End CoreTheorems.

(** ** Versioned store, further *)

Lemma substring_none (s : string) : substring 0 0 s = "".
Proof. now destruct s. Qed.

Lemma substring_all (s : string) : substring 0 (String.length s) s = s.
Proof. induction s as [|c s IH]; [reflexivity |]. cbn. now rewrite IH. Qed.

Lemma substring_split (n : nat) (s : string) :
  n <= String.length s ->
  substring 0 n s ++ substring n (String.length s - n) s = s.
Proof.
  revert n. induction s as [|c s IH]; intros n Hn.
  - cbn in Hn. now replace n with 0 by lia.
  - destruct n as [|n].
    + now rewrite substring_none, Nat.sub_0_r, substring_all.
    + cbn [substring String.length Nat.sub]. cbn in Hn.
      change (String c ?a ++ ?b) with (String c (a ++ b)). f_equal.
      apply IH. lia.
Qed.

Lemma rfind_lt (c : ascii) (s : string) (i : nat) :
  rfind c s = Some i -> i < String.length s.
Proof.
  revert i. induction s as [|d s IH]; intros i; [discriminate |].
  cbn. destruct (rfind c s) as [j|].
  - intros [= <-]. specialize (IH j eq_refl). lia.
  - destruct (d =? c)%char; [intros [= <-]; lia | discriminate].
Qed.

Lemma rfind_suffix (c : ascii) (s : string) (i : nat) :
  rfind c s = Some i -> exists e, substring i (String.length s - i) s = String c e.
Proof.
  revert i. induction s as [|d s IH]; intros i; [discriminate |].
  cbn [rfind]. destruct (rfind c s) as [j|] eqn:Hj.
  - intros [= <-]. cbn. now apply IH.
  - destruct (Ascii.eqb_spec d c) as [-> | _]; [| discriminate].
    intros [= <-]. cbn. eauto.
Qed.

Lemma rfind_app (c : ascii) (s t : string) :
  rfind c (s ++ t)
  = match rfind c t with
    | Some i => Some (String.length s + i)
    | None => rfind c s
    end.
Proof.
  induction s as [|d s IH].
  - rewrite append_empty_l. now destruct (rfind c t).
  - rewrite append_cons. cbn [rfind String.length]. rewrite IH.
    now destruct (rfind c t).
Qed.

Lemma rfind_none (c : ascii) (t : string) :
  contains (fun x => (x =? c)%char) t = false -> rfind c t = None.
Proof.
  induction t as [|d t IH]; [reflexivity |].
  cbn [contains rfind]. intros [Hd Ht]%orb_false_iff.
  now rewrite (IH Ht), Hd.
Qed.

Lemma rfind_endswith_sep (dir : string) :
  endswith_sep dir = true -> rfind "/" dir = Some (pred (String.length dir)).
Proof.
  induction dir as [|c rest IH]; [discriminate |].
  destruct rest as [|c' rest'].
  - cbn. now intros ->.
  - intros Hsep. change (endswith_sep (String c' rest') = true) in Hsep.
    change (rfind "/" (String c (String c' rest')))
      with (match rfind "/" (String c' rest') with
            | Some i => Some (S i)
            | None => if (c =? "/")%char then Some 0 else None
            end).
    rewrite (IH Hsep). reflexivity.
Qed.

(** Where the last component starts. *)
Lemma filename_index (dir name : string) :
  dir = "" \/ endswith_sep dir = true ->
  contains (fun c => (c =? "/")%char) name = false ->
  match rfind "/" (dir ++ name) with Some i => S i | None => 0 end = String.length dir.
Proof.
  intros Hdir Hname. rewrite rfind_app, (rfind_none _ _ Hname).
  destruct Hdir as [-> | Hsep]; [reflexivity |].
  rewrite (rfind_endswith_sep dir Hsep).
  destruct dir; [discriminate | reflexivity].
Qed.

Lemma substring_skip (a b : string) (n : nat) :
  substring (String.length a) n (a ++ b) = substring 0 n b.
Proof.
  induction a as [|c a IH]; [now rewrite append_empty_l |].
  rewrite append_cons. exact IH.
Qed.

Lemma substring_prefix (a b : string) :
  substring 0 (String.length a) (a ++ b) = a.
Proof.
  induction a as [|c a IH]; [rewrite append_empty_l; apply substring_none |].
  rewrite append_cons. cbn. now rewrite IH.
Qed.

Lemma length_append_string (a b : string) :
  String.length (a ++ b) = String.length a + String.length b.
Proof.
  induction a as [|c a IH]; [now rewrite append_empty_l |].
  rewrite append_cons. cbn. now rewrite IH.
Qed.

Lemma all_dots_prefix (dots rest : string) (n : nat) :
  all_dots dots = true -> n <= String.length dots ->
  all_dots (substring 0 n (dots ++ rest)) = true.
Proof.
  revert n. induction dots as [|c dots IH]; intros n Hdots Hn.
  - cbn in Hn. replace n with 0 by lia. now rewrite substring_none.
  - destruct n as [|n]; [now rewrite substring_none |].
    rewrite append_cons. cbn in Hdots, Hn |- *.
    apply andb_true_iff in Hdots as [-> Hdots]. apply IH; [exact Hdots | lia].
Qed.

(** [splitext] on a name with an extension, and on a name without. *)
Lemma os_path_splitext_ext (dir stem sfx : string) :
  dir = "" \/ endswith_sep dir = true ->
  contains (fun c => (c =? "/")%char) (stem ++ "." ++ sfx) = false ->
  all_dots stem = false ->
  contains (fun c => (c =? ".")%char) sfx = false ->
  os_path_splitext (dir ++ stem ++ "." ++ sfx) = (dir ++ stem, "." ++ sfx).
Proof.
  intros Hdir Hname Hstem Hsfx. unfold os_path_splitext.
  rewrite (filename_index dir _ Hdir Hname).
  replace (dir ++ stem ++ "." ++ sfx) with ((dir ++ stem) ++ "." ++ sfx)
    by apply append_assoc_string.
  rewrite (rfind_app "." (dir ++ stem)).
  change ("." ++ sfx) with (String "." sfx). cbn [rfind].
  rewrite (rfind_none _ _ Hsfx). cbn [Ascii.eqb Bool.eqb].
  rewrite Nat.add_0_r, length_append_string.
  replace (String.length dir <=? String.length dir + String.length stem)%nat with true
    by (symmetry; apply Nat.leb_le; lia).
  replace (String.length dir + String.length stem - String.length dir)
    with (String.length stem) by lia.
  rewrite (append_assoc_string dir stem). rewrite substring_skip.
  rewrite substring_prefix, Hstem. cbn [andb negb].
  rewrite <- (append_assoc_string dir stem).
  rewrite <- length_append_string. rewrite substring_prefix. f_equal.
  rewrite substring_skip.
  rewrite (length_append_string (dir ++ stem)).
  replace (_ + _ - _) with (String.length (String "." sfx)) by lia.
  apply substring_all.
Qed.

Lemma os_path_splitext_no_ext (dir dots rest : string) :
  dir = "" \/ endswith_sep dir = true ->
  contains (fun c => (c =? "/")%char) (dots ++ rest) = false ->
  all_dots dots = true ->
  contains (fun c => (c =? ".")%char) rest = false ->
  os_path_splitext (dir ++ dots ++ rest) = (dir ++ dots ++ rest, "").
Proof.
  intros Hdir Hname Hdots Hrest. unfold os_path_splitext.
  rewrite (filename_index dir _ Hdir Hname).
  replace (dir ++ dots ++ rest) with ((dir ++ dots) ++ rest) at 1
    by apply append_assoc_string.
  rewrite (rfind_app "." (dir ++ dots)), (rfind_none _ _ Hrest).
  rewrite rfind_app.
  destruct (rfind "." dots) as [i|] eqn:Hi.
  - apply rfind_lt in Hi.
    replace (String.length dir <=? String.length dir + i)%nat with true
      by (symmetry; apply Nat.leb_le; lia).
    replace (String.length dir + i - String.length dir) with i by lia.
    rewrite substring_skip, all_dots_prefix by (auto; lia). reflexivity.
  - destruct (rfind "." dir) as [j|] eqn:Hj; [| reflexivity].
    apply rfind_lt in Hj.
    replace (String.length dir <=? j)%nat with false
      by (symmetry; apply Nat.leb_gt; lia).
    reflexivity.
Qed.

(** X10. The name of a backup is the name of the file with a dash and the time
    tag put in before the extension.  For a file in a directory [dir], or in
    none: a name [stem.sfx], where the stem is not made of dots only and the
    suffix has no dot, is backed up as [stem-tag.sfx]; a name with no dot
    but at its start has no extension and is backed up as [name-tag]. *)
Theorem backup_name_shape (dir name time_tag : string) :
  dir = "" \/ endswith_sep dir = true ->
  contains (fun c => (c =? "/")%char) name = false ->
  (forall stem sfx,
     name = stem ++ "." ++ sfx ->
     all_dots stem = false ->
     contains (fun c => (c =? ".")%char) sfx = false ->
     os_path_splitext (dir ++ name) = (dir ++ stem, "." ++ sfx)
     /\ backup_name (dir ++ name) time_tag = dir ++ stem ++ "-" ++ time_tag ++ "." ++ sfx)
  /\ (forall dots rest,
        name = dots ++ rest ->
        all_dots dots = true ->
        contains (fun c => (c =? ".")%char) rest = false ->
        os_path_splitext (dir ++ name) = (dir ++ name, "")
        /\ backup_name (dir ++ name) time_tag = dir ++ name ++ "-" ++ time_tag).
Proof.
  intros Hdir Hname. split.
  - intros stem sfx -> Hstem Hsfx.
    pose proof (os_path_splitext_ext dir stem sfx Hdir Hname Hstem Hsfx) as Hsplit.
    split; [exact Hsplit |]. unfold backup_name. rewrite Hsplit.
    apply append_assoc_string.
  - intros dots rest -> Hdots Hrest.
    pose proof (os_path_splitext_no_ext dir dots rest Hdir Hname Hdots Hrest) as Hsplit.
    split; [exact Hsplit |]. unfold backup_name. rewrite Hsplit.
    rewrite append_empty_r. apply append_assoc_string.
Qed.

Section StoreFacts.

Ltac world_simpl :=
  cbn [names dirs inodes ofds flocks time_tags ticks net events set_names set_inodes
       set_ofds set_flocks set_ticks set_net log_event written world_of negb].

(** X9. [backup] changes the content of no file and takes no name away; where
    there is no file it changes nothing. *)
Theorem backup_keeps_files (filename : string) (w : world) :
  inodes (world_of (backup filename w)) = inodes w
  /\ writes (events (world_of (backup filename w))) = writes (events w)
  /\ (forall p ino, names w !! p = Some ino ->
                    names (world_of (backup filename w)) !! p = Some ino)
  /\ (names w !! filename = None -> backup filename w = Ok tt w).
Proof.
  destruct (names w !! filename) as [ino|] eqn:Hname.
  - rewrite (backup_present filename ino w Hname).
    destruct (names w !! backup_name filename (time_tags w (ticks w))) as [other|] eqn:Hdst;
      world_simpl; repeat split; auto; try discriminate.
    + rewrite writes_app. cbn. apply app_nil_r.
    + intros p i Hp. rewrite lookup_insert_ne; [exact Hp | congruence].
  - rewrite (backup_absent filename w Hname). repeat split; auto.
Qed.




End StoreFacts.

(** ** Remote fetcher, further *)

Lemma requests_app evs1 evs2 :
  requests (evs1 ++ evs2) = (requests evs1 ++ requests evs2)%list.
Proof.
  induction evs1 as [|[] evs1 IH]; cbn; [reflexivity | | | f_equal]; exact IH.
Qed.

(** X11. Whatever the status of the response, [fetch] sends one request, takes
    the response off the network, and returns its body, decoded with the
    declared encoding and encoded in utf-8; it raises when the body does not
    decode. *)
Theorem fetch_one_request_any_status {unicode : Type}
    (decode : string -> string -> option unicode) (encode : unicode -> string)
    (url : string) (resp : response) (rest : list response) (w : world) :
  net w !! url = Some (resp :: rest) ->
  exists w',
    requests (events w') = (requests (events w) ++ [url])%list
    /\ net w' = <[url := rest]> (net w)
    /\ names w' = names w /\ inodes w' = inodes w
    /\ fetch decode encode url w
       = match decode (declared_encoding (content_type resp)) (content resp) with
         | Some text => Ok (encode text) w'
         | None => Raise (DecodeError (declared_encoding (content_type resp))) w'
         end.
Proof.
  intros Hnet.
  exists (set_net <[url := rest]> (log_event (Requested url) w)).
  split; [cbn; now rewrite requests_app |].
  do 3 (split; [reflexivity |]).
  rewrite (fetch_first_response decode encode url w resp rest Hnet).
  unfold normalize_encoding. fold (declared_encoding (content_type resp)).
  now destruct (decode _ (content resp)).
Qed.

Lemma after_literal_append lit s rest :
  after_literal lit s = Some rest -> s = lit ++ rest.
Proof.
  revert s. induction lit as [|a lit IH]; intros s.
  - cbn. now intros [= ->].
  - destruct s as [|b s]; [discriminate |]. cbn [after_literal].
    destruct (Ascii.eqb_spec a b) as [-> | _]; [| discriminate].
    intros H. rewrite (IH _ H). reflexivity.
Qed.

Lemma span_append (p : ascii -> bool) s :
  exists rest,
    s = span p s ++ rest
    /\ contains (fun c => negb (p c)) (span p s) = false
    /\ match rest with String c _ => p c = false | "" => True end.
Proof.
  induction s as [|c s (rest & Hs & Hall & Hrest)].
  - exists "". repeat split.
  - cbn [span]. destruct (p c) eqn:Hc.
    + exists rest. rewrite append_cons, <- Hs. cbn [contains]. rewrite Hc, Hall.
      repeat split. exact Hrest.
    + exists (String c s). repeat split. exact Hc.
Qed.

Lemma charset_here_sound s g :
  charset_here s = Some g ->
  exists post,
    s = "charset=" ++ g ++ post
    /\ g <> ""
    /\ contains (fun c => negb (charset_char c)) g = false
    /\ match post with String c _ => charset_char c = false | "" => True end.
Proof.
  unfold charset_here.
  destruct (after_literal "charset=" s) as [rest|] eqn:Hlit; [| discriminate].
  apply after_literal_append in Hlit.
  destruct (span_append charset_char rest) as (post & Hrest & Hall & Hpost).
  fold charset_char.
  destruct (span charset_char rest) as [|c g'] eqn:Hspan; [discriminate |].
  intros [= <-]. exists post. rewrite Hlit. rewrite Hrest at 1.
  repeat split; [discriminate | exact Hall | exact Hpost].
Qed.

(** X13. What [CHARSET_PAT.search] returns is in the header: it follows the
    literal [charset=], it is not empty, it is made of word characters and
    dashes, and it stops at the end of the header or before a character that
    is neither. *)
Theorem CHARSET_PAT_search_sound (s g : string) :
  CHARSET_PAT_search s = Some g ->
  exists pre post,
    s = pre ++ "charset=" ++ g ++ post
    /\ g <> ""
    /\ contains (fun c => negb (charset_char c)) g = false
    /\ match post with String c _ => charset_char c = false | "" => True end.
Proof.
  induction s as [|c s IH]; cbn [CHARSET_PAT_search].
  - destruct (charset_here "") eqn:Hhere; [| discriminate].
    intros [= ->]. apply charset_here_sound in Hhere as (post & H).
    now exists "", post.
  - destruct (charset_here (String c s)) eqn:Hhere.
    + intros [= ->]. apply charset_here_sound in Hhere as (post & H).
      now exists "", post.
    + intros Hs. destruct (IH Hs) as (pre & post & -> & H).
      now exists (String c pre), post.
Qed.

Lemma after_literal_self lit rest : after_literal lit (lit ++ rest) = Some rest.
Proof.
  induction lit as [|a lit IH]; [now destruct rest |].
  rewrite append_cons. cbn [after_literal]. now rewrite Ascii.eqb_refl.
Qed.

Lemma span_exact (p : ascii -> bool) g post :
  contains (fun c => negb (p c)) g = false ->
  match post with String c _ => p c = false | "" => True end ->
  span p (g ++ post) = g.
Proof.
  intros Hall Hpost. induction g as [|c g IH].
  - rewrite append_empty_l. destruct post as [|c post]; [reflexivity |].
    cbn. now rewrite Hpost.
  - cbn in Hall. apply orb_false_iff in Hall as [Hc Hg].
    apply negb_false_iff in Hc. rewrite append_cons. cbn [span].
    now rewrite Hc, IH.
Qed.

Lemma CHARSET_PAT_search_here s g :
  charset_here s = Some g -> CHARSET_PAT_search s = Some g.
Proof. intros H. destruct s; cbn [CHARSET_PAT_search]; now rewrite H. Qed.

Lemma get_no_eq (pre : string) (n : nat) :
  contains (fun c => (c =? "=")%char) pre = false ->
  String.get n pre <> Some "="%char.
Proof.
  revert n. induction pre as [|c pre IH]; intros n Hno; [now destruct n |].
  cbn in Hno. apply orb_false_iff in Hno as [Hc Hpre].
  destruct n as [|n]; cbn.
  - intros [= ->]. discriminate.
  - now apply IH.
Qed.

(** A header whose first equals sign is the one of [charset=] gives the
    charset that follows it. *)
Lemma charset_found (pre g post : string) :
  contains (fun c => (c =? "=")%char) pre = false ->
  g <> "" ->
  contains (fun c => negb (charset_char c)) g = false ->
  match post with String c _ => charset_char c = false | "" => True end ->
  CHARSET_PAT_search (pre ++ "charset=" ++ g ++ post) = Some g.
Proof.
  intros Hpre Hne Hall Hpost.
  assert (Hhere : charset_here ("charset=" ++ g ++ post) = Some g).
  { unfold charset_here. rewrite after_literal_self.
    fold charset_char. rewrite (span_exact _ _ _ Hall Hpost).
    destruct g; [congruence | reflexivity]. }
  induction pre as [|c pre IH].
  - rewrite append_empty_l. now apply CHARSET_PAT_search_here.
  - pose proof Hpre as Hpre0.
    cbn in Hpre. apply orb_false_iff in Hpre as [Hc Hpre'].
    rewrite append_cons. cbn [CHARSET_PAT_search].
    destruct (charset_here (String c (pre ++ "charset=" ++ g ++ post))) as [g'|] eqn:Hfalse;
      [exfalso | now apply IH].
    unfold charset_here in Hfalse.
    destruct (after_literal "charset=" _) as [rest|] eqn:Hlit; [| discriminate].
    apply after_literal_append in Hlit.
    apply (f_equal (String.get 7)) in Hlit.
    rewrite <- append_cons in Hlit.
    change (String.get 7 ("charset=" ++ rest)) with (Some "="%char) in Hlit.
    destruct (Nat.lt_ge_cases 7 (String.length (String c pre))) as [Hin | Hout].
    + rewrite <- append_correct1 in Hlit by exact Hin.
      now apply (get_no_eq _ 7 Hpre0).
    + replace 7 with ((7 - String.length (String c pre)) + String.length (String c pre))
        in Hlit at 1 by lia.
      rewrite <- append_correct2 in Hlit.
      remember (7 - String.length (String c pre)) as k eqn:Hk.
      assert (Hk6 : k <= 6) by (cbn in Hk; lia).
      do 7 (destruct k as [|k]; [discriminate Hlit |]). lia.
Qed.

(** X14. When the first equals sign of the header is the one of [charset=],
    [normalize_encoding] decodes with the charset that follows it, taken up to
    the first character that is neither a word character nor a dash; the
    world is left as it is. *)
Theorem normalize_encoding_declared_charset {unicode : Type}
    (decode : string -> string -> option unicode) (encode : unicode -> string)
    (data pre g post : string) (w : world) :
  contains (fun c => (c =? "=")%char) pre = false ->
  g <> "" ->
  contains (fun c => negb (charset_char c)) g = false ->
  match post with String c _ => charset_char c = false | "" => True end ->
  normalize_encoding decode encode data (Some (pre ++ "charset=" ++ g ++ post)) w
  = match decode g data with
    | Some text => Ok (encode text) w
    | None => Raise (DecodeError g) w
    end.
Proof.
  intros Hpre Hne Hall Hpost.
  pose proof (charset_found pre g post Hpre Hne Hall Hpost) as Hfound.
  unfold normalize_encoding.
  destruct (pre ++ "charset=" ++ g ++ post) as [|c ctype] eqn:Hheader.
  - discriminate Hfound.
  - rewrite Hfound. now destruct (decode g data).
Qed.

(** ** Cell normalizer, further *)

Section CellShape.

Lemma contains_append (p : ascii -> bool) s t :
  contains p (s ++ t) = contains p s || contains p t.
Proof.
  induction s as [|c s IH]; [reflexivity |].
  rewrite append_cons. cbn [contains]. now rewrite IH, orb_assoc.
Qed.

Lemma contains_weaken (p q : ascii -> bool) s :
  (forall c, q c = true -> p c = true) ->
  contains p s = false -> contains q s = false.
Proof.
  intros Hqp. induction s as [|c s IH]; [reflexivity |]. cbn.
  intros H. apply orb_false_iff in H as [Hc Hs].
  rewrite (IH Hs), orb_false_r.
  destruct (q c) eqn:Hq; [| reflexivity]. now rewrite (Hqp c Hq) in Hc.
Qed.

Lemma lstrip_contains (p : ascii -> bool) s :
  contains p s = false -> contains p (lstrip s) = false.
Proof.
  induction s as [|c s IH]; [reflexivity |]. cbn [lstrip contains].
  intros H. apply orb_false_iff in H as [Hc Hs].
  destruct (isspace c); [auto |]. cbn. now rewrite Hc, Hs.
Qed.

Lemma rstrip_contains (p : ascii -> bool) s :
  contains p s = false -> contains p (rstrip s) = false.
Proof.
  induction s as [|c s IH]; [reflexivity |]. cbn [rstrip contains].
  intros H. apply orb_false_iff in H as [Hc Hs]. specialize (IH Hs).
  destruct (rstrip s) as [|r rs].
  - destruct (isspace c); [reflexivity |]. cbn. now rewrite Hc.
  - change (p c || contains p (String r rs) = false). now rewrite Hc, IH.
Qed.

Lemma replace_contains (p q : ascii -> bool) (old : ascii) (new s : string) :
  (forall c, (c =? old)%char = false -> p c = false -> q c = false) ->
  contains q new = false ->
  contains p s = false -> contains q (replace old new s) = false.
Proof.
  intros Hkeep Hnew. induction s as [|c s IH]; [reflexivity |].
  cbn [replace contains]. intros H. apply orb_false_iff in H as [Hc Hs].
  destruct (c =? old)%char eqn:Hold.
  - rewrite contains_append, Hnew. now apply IH.
  - cbn [contains]. now rewrite (Hkeep c Hold Hc), IH.
Qed.

Lemma NUM_PAT_match_chars text g :
  NUM_PAT_match text = Some g -> contains (fun c => negb (num_char c)) g = false.
Proof.
  assert (Hgroup : forall s g', num_group s = Some g' ->
                     contains (fun c => negb (num_char c)) g' = false).
  { intros s g'. unfold num_group.
    destruct (span_append num_char s) as (rest & _ & Hall & _).
    destruct (span num_char s); [discriminate |]. now intros [= <-]. }
  unfold NUM_PAT_match.
  destruct text as [|c rest]; [apply Hgroup |].
  destruct (Ascii.eqb_spec c "*") as [-> | Hc].
  - destruct (num_group rest) as [g'|] eqn:Hrest.
    + intros [= <-]. now apply Hgroup in Hrest.
    + apply Hgroup.
  - intros H. apply (Hgroup (String c rest)).
    destruct c as [[] [] [] [] [] [] [] []]; try exact H. congruence.
Qed.

(** Nothing to collapse where there is no whitespace. *)
Lemma collapse_no_space s : contains isspace s = false -> join " " (split s) = s.
Proof.
  intros Hno. destruct s as [|c0 s0] eqn:Hs; [reflexivity |]. rewrite <- Hs in *.
  assert (Hw : word s) by (split; [rewrite Hs; discriminate | exact Hno]).
  rewrite <- (append_empty_r s) at 1.
  now rewrite split_word_append by (assumption || exact I).
Qed.

(** X15. A cell that the numeric pattern matches comes out made of decimal
    digits and points only: no space, no comma, no star. *)
Theorem norm_cell_numeric_chars (text g : string) :
  NUM_PAT_match text = Some g ->
  contains (fun c => negb (isdigit c || (c =? ".")%char)) (norm_cell text) = false.
Proof.
  intros Hmatch. unfold norm_cell. rewrite Hmatch.
  pose proof (NUM_PAT_match_chars _ _ Hmatch) as Hg.
  assert (Hclean :
    contains (fun c => negb (isdigit c || (c =? ".")%char))
      (replace " " "" (replace "," "." (strip g))) = false).
  { apply replace_contains
      with (p := fun c => negb (isdigit c || (c =? " ")%char || (c =? ".")%char));
      [| reflexivity |].
    - intros c Hsp Hc. apply negb_false_iff in Hc. apply negb_false_iff.
      rewrite Hsp, orb_false_r in Hc. exact Hc || (now rewrite orb_comm in Hc).
    - apply replace_contains with (p := fun c => negb (num_char c)); [| reflexivity |].
      + intros c Hcomma Hc. apply negb_false_iff in Hc. apply negb_false_iff.
        unfold num_char in Hc. rewrite Hcomma, orb_false_r in Hc. now rewrite Hc.
      + unfold strip. now apply rstrip_contains, lstrip_contains. }
  rewrite collapse_no_space; [exact Hclean |].
  eapply contains_weaken; [| exact Hclean].
  intros c Hc. destruct c as [[] [] [] [] [] [] [] []]; vm_compute in Hc |- *;
    congruence.
Qed.

Lemma join_two w w2 ws :
  join " " (w :: w2 :: ws) = w ++ String " " (join " " (w2 :: ws)).
Proof. reflexivity. Qed.

Lemma word_head w :
  word w -> exists c w', w = String c w' /\ isspace c = false /\ contains isspace w' = false.
Proof.
  intros [Hne Hw]. destruct w as [|c w']; [congruence |].
  cbn in Hw. apply orb_false_iff in Hw as [Hc Hw']. eauto.
Qed.

(** The words joined by single spaces start with the first character of the
    first word. *)
Lemma join_head w ws :
  word w -> exists c rest, join " " (w :: ws) = String c rest /\ isspace c = false.
Proof.
  intros Hw. destruct (word_head w Hw) as (c & w' & -> & Hc & _).
  destruct ws; [now exists c, w' |]. rewrite join_two, append_cons. eauto.
Qed.

Lemma rstrip_append_fixed a b :
  rstrip b = b -> b <> "" -> rstrip (a ++ b) = a ++ b.
Proof.
  intros Hb Hne. induction a as [|c a IH]; [now rewrite append_empty_l |].
  rewrite append_cons. cbn [rstrip]. rewrite IH.
  destruct (a ++ b) eqn:Hab; [| reflexivity].
  destruct a; [now rewrite append_empty_l in Hab | discriminate].
Qed.

Lemma has_double_space_word w rest :
  contains isspace w = false ->
  has_double_space rest = false ->
  match rest with String c _ => isspace c = false | "" => True end ->
  has_double_space (w ++ String " " rest) = false.
Proof.
  intros Hw Hrest Hhead. induction w as [|c w IH].
  - rewrite append_empty_l. cbn [has_double_space].
    destruct rest as [|r rest]; [reflexivity |].
    rewrite orb_false_iff. split; [| exact Hrest].
    destruct (Ascii.eqb_spec r " ") as [-> | _]; [discriminate Hhead | reflexivity].
  - cbn in Hw. apply orb_false_iff in Hw as [Hc Hw]. specialize (IH Hw).
    rewrite append_cons.
    destruct (w ++ String " " rest) as [|b t] eqn:Hwt.
    + reflexivity.
    + change (((c =? " ")%char && (b =? " ")%char) || has_double_space (String b t) = false).
      rewrite IH, orb_false_r.
      destruct (Ascii.eqb_spec c " ") as [-> | _]; [discriminate Hc | reflexivity].
Qed.

Lemma has_double_space_no_space w :
  contains isspace w = false -> has_double_space w = false.
Proof.
  induction w as [|c w IH]; [reflexivity |]. cbn [contains].
  intros H. apply orb_false_iff in H as [Hc Hw].
  destruct w as [|b t]; [reflexivity |].
  change (((c =? " ")%char && (b =? " ")%char) || has_double_space (String b t) = false).
  rewrite (IH Hw), orb_false_r.
  destruct (Ascii.eqb_spec c " ") as [-> | _]; [discriminate Hc | reflexivity].
Qed.

(** Words joined by single spaces: the only whitespace is the single space
    between two words. *)
Lemma join_words_shape ws :
  Forall word ws ->
  contains (fun c => isspace c && negb (c =? " ")%char) (join " " ws) = false
  /\ lstrip (join " " ws) = join " " ws
  /\ rstrip (join " " ws) = join " " ws
  /\ has_double_space (join " " ws) = false.
Proof.
  induction 1 as [|w ws Hw Hws (Hodd & Hl & Hr & Hd)]; [repeat split |].
  pose proof Hw as [Hne Hnospace].
  destruct ws as [|w2 ws].
  - cbn [join]. repeat split.
    + eapply contains_weaken; [| exact Hnospace].
      intros c Hc. now apply andb_true_iff in Hc as [-> _].
    + now apply lstrip_no_space.
    + now apply rstrip_no_space.
    + now apply has_double_space_no_space.
  - rewrite join_two. set (J := join " " (w2 :: ws)) in *.
    inversion Hws as [|? ? Hw2 _]; subst.
    destruct (join_head w2 ws Hw2) as (c2 & rest2 & HJ & Hc2). fold J in HJ.
    repeat split.
    + rewrite contains_append. cbn [contains]. rewrite Hodd.
      rewrite (contains_weaken isspace _ w); [reflexivity | | exact Hnospace].
      intros c Hc. now apply andb_true_iff in Hc as [-> _].
    + destruct (word_head w Hw) as (c & w' & -> & Hc & _).
      rewrite append_cons. cbn [lstrip]. now rewrite Hc.
    + change (String " " J) with (" " ++ J). rewrite <- append_assoc_string.
      apply rstrip_append_fixed; [exact Hr | rewrite HJ; discriminate].
    + apply has_double_space_word; [exact Hnospace | exact Hd |].
      now rewrite HJ.
Qed.

(** X16. A normalized cell has no whitespace but single spaces between words:
    no tab, no line break, no space at either end, no two spaces in a row. *)
Theorem norm_cell_whitespace (text : string) :
  contains (fun c => isspace c && negb (c =? " ")%char) (norm_cell text) = false
  /\ strip (norm_cell text) = norm_cell text
  /\ has_double_space (norm_cell text) = false.
Proof.
  unfold norm_cell.
  set (t := match NUM_PAT_match text with Some g => _ | None => text end).
  destruct (join_words_shape (split t) (split_words t)) as (Hodd & Hl & Hr & Hd).
  repeat split; [exact Hodd | | exact Hd].
  unfold strip. now rewrite Hl, Hr.
Qed.

End CellShape.

(** ** HTML table extractor, further *)


(** ** Computations that stay off the network *)

Section Quiet.

Ltac world_simpl :=
  cbn [names dirs inodes ofds flocks time_tags ticks net events set_names set_inodes
       set_ofds set_flocks set_ticks set_net log_event written world_of negb].

Lemma quiet_ret {A} (a : A) : quiet (ret a).
Proof. now intros w. Qed.

Lemma quiet_raise {A} (e : exception) : quiet (@raise A e).
Proof. now intros w. Qed.

Lemma quiet_bind {A B} (c : M A) (k : A -> M B) :
  quiet c -> (forall a, quiet (k a)) -> quiet (bind c k).
Proof.
  intros Hc Hk w. unfold bind. specialize (Hc w).
  destruct (c w) as [a w1 | e w1]; [| exact Hc].
  cbn [world_of] in Hc. destruct Hc as [Hnet Hreq].
  destruct (Hk a w1) as [Hnet' Hreq']. split; congruence.
Qed.

Lemma quiet_for_each {A} (xs : list A) (body : A -> M unit) :
  (forall x, quiet (body x)) -> quiet (for_each xs body).
Proof.
  intros Hbody. induction xs as [|x xs IH]; [apply quiet_ret |].
  cbn [for_each]. apply quiet_bind; auto.
Qed.

Lemma quiet_isfile path : quiet (os_path_isfile path).
Proof. now intros w. Qed.

Lemma quiet_getsize path : quiet (os_path_getsize path).
Proof. intros w. unfold os_path_getsize. now destruct (read_file w path). Qed.

Lemma quiet_open_read path : quiet (open_read path).
Proof. intros w. unfold open_read. now destruct (read_file w path). Qed.

Lemma quiet_open_write path data : quiet (open_write path data).
Proof.
  intros w. destruct (open_write_cases path data w) as [[ino ->] | [-> _]]; [| auto].
  world_simpl. split; [reflexivity |].
  rewrite requests_app. cbn. apply app_nil_r.
Qed.

Lemma quiet_link src dst : quiet (os_link src dst).
Proof.
  intros w. unfold os_link.
  destruct (names w !! src); [| auto]. destruct (names w !! dst); [auto |].
  world_simpl. split; [reflexivity |]. rewrite requests_app. cbn. apply app_nil_r.
Qed.

Lemma quiet_utcnow : quiet utcnow_isoformat.
Proof. now intros w. Qed.

Lemma quiet_os_open pid path : quiet (os_open pid path).
Proof. intros w. unfold os_open. now destruct (names w !! path). Qed.

Lemma quiet_flock fd : quiet (flock_EX_NB fd).
Proof.
  intros w. unfold flock_EX_NB.
  destruct (ofds w !! fd) as [[owner ino]|]; [| auto].
  destruct (flocks w !! ino) as [holder|]; [| auto].
  now destruct (decide (holder = fd)).
Qed.

Lemma quiet_backup filename : quiet (backup filename).
Proof.
  unfold backup. apply quiet_bind; [apply quiet_isfile |].
  intros present. destruct present; cbn [negb]; [| apply quiet_ret].
  apply quiet_bind; [apply quiet_utcnow |]. intros tag.
  destruct (os_path_splitext filename). apply quiet_link.
Qed.

Lemma quiet_save_df filename data : quiet (save_df filename data).
Proof.
  unfold save_df. apply quiet_bind; [apply quiet_isfile |]. intros present.
  apply quiet_bind; [| intros; apply quiet_open_write].
  destruct present; [| apply quiet_ret].
  apply quiet_bind; [apply quiet_getsize |]. intros size.
  destruct (_ <? _)%nat; [apply quiet_raise | apply quiet_backup].
Qed.

Lemma quiet_lock pid lock_dir : quiet (lock pid lock_dir).
Proof.
  unfold lock. apply quiet_bind; [apply quiet_isfile |]. intros present.
  apply quiet_bind.
  { destruct present; cbn [negb]; [apply quiet_ret | apply quiet_open_write]. }
  intros _. apply quiet_bind; [apply quiet_os_open |]. intros fd.
  apply quiet_bind; [apply quiet_flock |]. intros _. apply quiet_open_write.
Qed.

Lemma quiet_write_table data_dir ft : quiet (write_table data_dir ft).
Proof.
  destruct ft as [filename t]. unfold write_table.
  apply quiet_bind; [apply quiet_backup |]. intros _. apply quiet_open_write.
Qed.

Lemma quiet_parse_data_mtl soup data_dir : quiet (parse_data_mtl soup data_dir).
Proof.
  unfold parse_data_mtl. apply quiet_bind; [apply quiet_open_read |].
  intros document. apply quiet_bind.
  { destruct (negb _); [apply quiet_raise | apply quiet_ret]. }
  intros _. apply quiet_for_each. apply quiet_write_table.
Qed.

End Quiet.

(** ** Run lock, further *)

Section LockMore.

Variable lock_dir : string.

Ltac world_simpl :=
  cbn [names dirs inodes ofds flocks time_tags ticks net events set_names set_inodes
       set_ofds set_flocks set_ticks set_net log_event written world_of negb].


(** While the lock is held, [lock] raises in the world it found, but for the
    file description it has opened. *)
Lemma lock_held_raise_world pid w :
  held lock_dir w ->
  exists ino,
    lock pid lock_dir w
    = Raise BlockingIOError (set_ofds <[fresh (dom (ofds w)) := (pid, ino)]> w).
Proof.
  intros (ino & holder & owner & Hname & Hholder & Hopenfd).
  destruct (lock_prepare lock_dir w)
    as [(w0 & ino' & Hprep & _ & _ & _ & Hsame) | (Hnone & _)]; [| congruence].
  rewrite (Hsame ino Hname) in Hprep. clear Hsame ino'.
  rewrite (lock_unfold lock_dir pid w w Hprep).
  destruct (lock_from_open lock_dir pid w ino Hname) as [Hopen Hflock]. cbv zeta in *.
  rewrite Hholder in Hflock. rewrite (bind_Ok _ _ _ _ _ Hopen).
  destruct (decide (holder = fresh (dom (ofds w)))) as [Heq | Hne].
  { pose proof (fresh_fd_not_open w) as Hfresh. rewrite <- Heq in Hfresh. congruence. }
  exists ino. apply bind_Raise. exact Hflock.
Qed.

(** X19. A [lock] that finds the lock held raises [BlockingIOError] and has
    changed no name, no file content and no lock, and has written nothing. *)
Theorem lock_held_touches_no_file (pid : nat) (w : world) :
  held lock_dir w ->
  exists w2,
    lock pid lock_dir w = Raise BlockingIOError w2
    /\ names w2 = names w /\ inodes w2 = inodes w
    /\ flocks w2 = flocks w /\ events w2 = events w.
Proof.
  intros Hheld. destruct (lock_held_raise_world pid w Hheld) as (ino & ->).
  eexists. split; [reflexivity |]. world_simpl. auto.
Qed.


(** Without the lock file and without its directory, [lock] raises the
    [FileNotFoundError] of [open] and the world is as it was. *)
Lemma lock_needs_directory (pid : nat) (w : world) :
  names w !! lock_path lock_dir = None ->
  parent_dir_exists w (lock_path lock_dir) = false ->
  lock pid lock_dir w = Raise (FileNotFoundError (lock_path lock_dir)) w.
Proof.
  intros Hname Hdir.
  destruct (lock_prepare lock_dir w) as [(w0 & ino & Hprep & _) | (_ & _ & Hprep)].
  - exfalso. rewrite (bind_Ok _ _ _ _ _ (isfile_spec (lock_path lock_dir) w)) in Hprep.
    rewrite Hname in Hprep.
    rewrite bool_decide_eq_false_2 in Hprep by (intros [? ?]; discriminate).
    cbn [negb] in Hprep.
    rewrite (open_write_no_dir _ "" w Hname Hdir) in Hprep. discriminate.
  - now apply lock_unfold_raise.
Qed.

End LockMore.

(** ** Orchestrator, further *)

Section MainFacts.

Context {unicode : Type}.
Variable decode : string -> string -> option unicode.
Variable encode : unicode -> string.
Variable soup : string -> list table.

Ltac world_simpl :=
  cbn [names dirs inodes ofds flocks time_tags ticks net events set_names set_inodes
       set_ofds set_flocks set_ticks set_net log_event written world_of negb].

(** [fetch] sends one request, whatever comes of it. *)
Lemma fetch_requests url w :
  requests (events (world_of (fetch decode encode url w)))
  = (requests (events w) ++ [url])%list.
Proof.
  destruct (net w !! url) as [[|resp rest]|] eqn:Hnet.
  - rewrite fetch_no_response by auto. world_simpl. now rewrite requests_app.
  - rewrite (fetch_first_response _ _ _ _ _ _ Hnet), normalize_encoding_world.
    world_simpl. now rewrite requests_app.
  - rewrite fetch_no_response by auto. world_simpl. now rewrite requests_app.
Qed.

Lemma refresh_source_requests data_dir entry w :
  requests (events (world_of (refresh_source decode encode data_dir entry w)))
  = (requests (events w) ++ [entry.2])%list.
Proof.
  destruct entry as [file url]. unfold refresh_source, bind.
  pose proof (fetch_requests url w) as Hfetch.
  destruct (fetch decode encode url w) as [data w1 | e w1]; [| exact Hfetch].
  cbn [world_of] in Hfetch.
  destruct (quiet_save_df (os_path_join data_dir ["sources"; file]) data w1) as [_ Hsave].
  now rewrite Hsave.
Qed.

(** The loop over the sources asks for them in order, up to the one that
    raises. *)
Lemma refresh_loop_requests data_dir entries w :
  exists k,
    requests (events (world_of (for_each entries (refresh_source decode encode data_dir) w)))
    = (requests (events w) ++ take k (map snd entries))%list
    /\ (raised (for_each entries (refresh_source decode encode data_dir) w) = None ->
        k = length entries).
Proof.
  revert w. induction entries as [|entry entries IH]; intros w.
  - exists 0. cbn. now rewrite app_nil_r.
  - cbn [for_each]. unfold bind.
    pose proof (refresh_source_requests data_dir entry w) as Hentry.
    destruct (refresh_source decode encode data_dir entry w) as [[] w1 | e w1].
    + destruct (IH w1) as (k & Hreq & Hall). exists (S k).
      cbn [world_of] in Hentry. rewrite Hreq, Hentry. cbn [map take length].
      split; [now rewrite <- app_assoc | auto].
    + exists 1. cbn [world_of map take raised] in *. rewrite take_0.
      split; [exact Hentry | discriminate].
Qed.

(** X20. The requests of a run are the URLs of the registry, in the order of
    the registry, each at most once, up to the source where the run stops;
    none in local mode, all 4 in a run that is not local and succeeds. *)
Theorem main_requests_in_registry_order (pid : nat) (data_dir : string)
    (local : bool) (w : world) :
  exists k,
    requests (events (world_of (main decode encode soup pid data_dir local w)))
    = (requests (events w) ++ take k (map snd SOURCES))%list
    /\ (local = true -> k = 0)
    /\ (local = false ->
        raised (main decode encode soup pid data_dir local w) = None -> k = 4).
Proof.
  unfold main, bind.
  destruct (quiet_lock pid data_dir w) as [_ Hlock].
  destruct (lock pid data_dir w) as [[] w1 | e w1]; cbn [world_of] in Hlock.
  2:{ exists 0. rewrite take_0, app_nil_r. cbn [world_of raised].
      repeat split; [exact Hlock | discriminate]. }
  destruct local; cbn [negb].
  - exists 0. rewrite take_0, app_nil_r. cbn [ret].
    destruct (quiet_parse_data_mtl soup data_dir w1) as [_ Hparse].
    split; [| split; [reflexivity | discriminate]].
    destruct (parse_data_mtl soup data_dir w1); cbn [world_of ret] in *; congruence.
  - destruct (refresh_loop_requests data_dir SOURCES w1) as (k & Hreq & Hall).
    exists k. rewrite Hlock in Hreq.
    destruct (for_each SOURCES (refresh_source decode encode data_dir) w1) as [[] w2 | e w2];
      cbn [world_of raised] in *.
    + destruct (quiet_parse_data_mtl soup data_dir w2) as [_ Hparse].
      split; [| split; [discriminate | intros _ _; now apply Hall]].
      destruct (parse_data_mtl soup data_dir w2); cbn [world_of ret] in *; congruence.
    + split; [exact Hreq | split; discriminate].
Qed.

(** X21. A run in local mode stays off the network: it sends no request and
    takes no response, whatever it ends with. *)
Theorem main_local_offline (pid : nat) (data_dir : string) (w : world) :
  net (world_of (main decode encode soup pid data_dir true w)) = net w
  /\ requests (events (world_of (main decode encode soup pid data_dir true w)))
     = requests (events w).
Proof.
  assert (Hquiet : quiet (main decode encode soup pid data_dir true)).
  { unfold main. apply quiet_bind; [apply quiet_lock |]. intros _.
    apply quiet_bind; [apply quiet_ret |]. intros _.
    apply quiet_bind; [apply quiet_parse_data_mtl |]. intros _. apply quiet_ret. }
  apply Hquiet.
Qed.

(** X22. A run that finds the lock held ends at once with [BlockingIOError]:
    it has sent no request and changed no name, no file content. *)
Theorem main_lock_held_aborts (pid : nat) (data_dir : string) (local : bool)
    (w : world) :
  held data_dir w ->
  exists w2,
    main decode encode soup pid data_dir local w = Raise BlockingIOError w2
    /\ events w2 = events w /\ net w2 = net w
    /\ names w2 = names w /\ inodes w2 = inodes w.
Proof.
  intros Hheld. destruct (lock_held_raise_world data_dir pid w Hheld) as (ino & Hlock).
  eexists. split; [unfold main; apply bind_Raise; exact Hlock |].
  world_simpl. auto.
Qed.

End MainFacts.

(** ** Runs of the statements above on the worlds of this file *)

Lemma reduce_cols_keeps_title_and_latest_witness :
  Core.reduce_cols (seq 0 25) 10
  = inr [0; 1; 3; 5; 7; 9; 11; 13; 15; 17; 19; 21; 23; 24]
  /\ exists title inner latest picked,
       seq 0 25 = title :: inner ++ [latest]
       /\ [0; 1; 3; 5; 7; 9; 11; 13; 15; 17; 19; 21; 23; 24] = title :: picked ++ [latest]
       /\ picked <> []
       /\ forall c, c ∈ picked -> c ∈ inner.
Proof.
  split; [reflexivity |].
  apply (reduce_cols_keeps_title_and_latest (seq 0 25) 10). reflexivity.
Defined.

Lemma reduce_cols_column_count_witness :
  (0 < 10)%Z
  /\ (10 + 2 <= Z.of_nat (length (seq 0 25)))%Z
  /\ exists out,
       Core.reduce_cols (seq 0 25) 10 = inr out
       /\ out `sublist_of` seq 0 25
       /\ (10 + 2 <= Z.of_nat (length out) < 2 * 10 + 2)%Z.
Proof.
  assert (Hd : (0 < 10)%Z) by lia.
  assert (Hlen : (10 + 2 <= Z.of_nat (length (seq 0 25)))%Z) by (simpl; lia).
  split; [exact Hd |]. split; [exact Hlen |].
  exact (reduce_cols_column_count (seq 0 25) 10 Hd Hlen).
Defined.

Lemma reduce_cols_too_few_columns_witness :
  (0 <= 10)%Z
  /\ ((Z.of_nat (length (seq 0 11)) < 10 + 2)%Z \/ 10%Z = 0%Z)
  /\ Core.reduce_cols (seq 0 11) 10 = inl Core.ValueError_slice_step.
Proof.
  assert (Hd : (0 <= 10)%Z) by lia.
  assert (Hfew : (Z.of_nat (length (seq 0 11)) < 10 + 2)%Z \/ 10%Z = 0%Z)
    by (left; simpl; lia).
  split; [exact Hd |]. split; [exact Hfew |].
  exact (reduce_cols_too_few_columns (seq 0 11) 10 Hd Hfew).
Defined.

Lemma reduce_rows_keeps_latest_witness :
  Core.reduce_rows (Some (fun n => negb (n =? 7)%nat)) (seq 0 8) 2 = inr [0; 3; 6]
  /\ exists kept latest picked,
       List.filter (fun n => negb (n =? 7)%nat) (seq 0 8) = (kept ++ [latest])%list
       /\ [0; 3; 6] = (picked ++ [latest])%list
       /\ picked <> []
       /\ forall r, r ∈ [0; 3; 6] ->
                    r ∈ seq 0 8 /\ (fun n => negb (n =? 7)%nat) r = true.
Proof.
  split; [reflexivity |].
  apply (reduce_rows_keeps_latest (fun n => negb (n =? 7)%nat) (seq 0 8) 2). reflexivity.
Defined.

Lemma reduce_rows_row_count_witness :
  (0 < 10)%Z
  /\ (10 + 1 <= Z.of_nat (length (List.filter (fun n => negb (n =? 7)%nat) (seq 0 25))))%Z
  /\ exists out,
       Core.reduce_rows (Some (fun n => negb (n =? 7)%nat)) (seq 0 25) 10 = inr out
       /\ out `sublist_of` seq 0 25
       /\ (10 + 1 <= Z.of_nat (length out) < 2 * 10 + 1)%Z.
Proof.
  assert (Hd : (0 < 10)%Z) by lia.
  assert (Hlen : (10 + 1 <= Z.of_nat (length (List.filter (fun n => negb (n =? 7)%nat)
                                                (seq 0 25))))%Z) by (simpl; lia).
  split; [exact Hd |]. split; [exact Hlen |].
  exact (reduce_rows_row_count (fun n => negb (n =? 7)%nat) (seq 0 25) 10 Hd Hlen).
Defined.

Lemma reduce_rows_too_few_rows_witness :
  (0 <= 10)%Z
  /\ ((Z.of_nat (length (List.filter (fun n => negb (n =? 7)%nat) (seq 0 8))) < 10 + 1)%Z
      \/ 10%Z = 0%Z)
  /\ Core.reduce_rows (Some (fun n => negb (n =? 7)%nat)) (seq 0 8) 10
     = inl Core.ValueError_slice_step.
Proof.
  assert (Hd : (0 <= 10)%Z) by lia.
  assert (Hfew : (Z.of_nat (length (List.filter (fun n => negb (n =? 7)%nat) (seq 0 8)))
                  < 10 + 1)%Z \/ 10%Z = 0%Z) by (left; simpl; lia).
  split; [exact Hd |]. split; [exact Hfew |].
  exact (reduce_rows_too_few_rows (fun n => negb (n =? 7)%nat) (seq 0 8) 10 Hd Hfew).
Defined.

Lemma backup_name_shape_witness :
  backup_name "data/sources/data_qc.csv" "2020-04-01T12:00:00.5"
  = "data/sources/data_qc-2020-04-01T12:00:00.5.csv"
  /\ backup_name "data/sources/.cache" "2020-04-01T12:00:00.5"
     = "data/sources/.cache-2020-04-01T12:00:00.5".
Proof.
  split.
  - apply (proj1 (backup_name_shape "data/sources/" "data_qc.csv" "2020-04-01T12:00:00.5"
                    ltac:(right; reflexivity) eq_refl) "data_qc" "csv");
      reflexivity.
  - apply (proj2 (backup_name_shape "data/sources/" ".cache" "2020-04-01T12:00:00.5"
                    ltac:(right; reflexivity) eq_refl) "." "cache");
      reflexivity.
Defined.



Lemma fetch_one_request_any_status_witness :
  net unreliable_world !! flaky_url
  = Some [Response 500 None "Internal Server Error";
          Response 503 None "Service Unavailable";
          Response 200 (Some "text/csv; charset=utf-8") "a,b"]
  /\ exists w',
       requests (events w') = (requests (events unreliable_world) ++ [flaky_url])%list
       /\ net w' = <[flaky_url := [Response 503 None "Service Unavailable";
                                   Response 200 (Some "text/csv; charset=utf-8") "a,b"]]>
                     (net unreliable_world)
       /\ names w' = names unreliable_world /\ inodes w' = inodes unreliable_world
       /\ fetch ascii_decode ascii_encode flaky_url unreliable_world
          = match ascii_decode (declared_encoding None) "Internal Server Error" with
            | Some text => Ok (ascii_encode text) w'
            | None => Raise (DecodeError (declared_encoding None)) w'
            end.
Proof.
  assert (Hnet : net unreliable_world !! flaky_url
                 = Some [Response 500 None "Internal Server Error";
                         Response 503 None "Service Unavailable";
                         Response 200 (Some "text/csv; charset=utf-8") "a,b"])
    by (vm_compute; reflexivity).
  split; [exact Hnet |].
  exact (fetch_one_request_any_status ascii_decode ascii_encode flaky_url _ _
           unreliable_world Hnet).
Defined.

Lemma CHARSET_PAT_search_sound_witness :
  CHARSET_PAT_search "text/html; charset=ISO-8859-1; q=1" = Some "ISO-8859-1"
  /\ exists pre post,
       "text/html; charset=ISO-8859-1; q=1" = pre ++ "charset=" ++ "ISO-8859-1" ++ post
       /\ "ISO-8859-1" <> ""
       /\ contains (fun c => negb (charset_char c)) "ISO-8859-1" = false
       /\ match post with String c _ => charset_char c = false | "" => True end.
Proof.
  split; [reflexivity |].
  apply (CHARSET_PAT_search_sound "text/html; charset=ISO-8859-1; q=1" "ISO-8859-1").
  reflexivity.
Defined.

Lemma normalize_encoding_declared_charset_witness :
  contains (fun c => (c =? "=")%char) "text/csv; " = false
  /\ "utf-8" <> ""
  /\ contains (fun c => negb (charset_char c)) "utf-8" = false
  /\ normalize_encoding ascii_decode ascii_encode "a,b"
       (Some ("text/csv; " ++ "charset=" ++ "utf-8" ++ "")) empty_world
     = match ascii_decode "utf-8" "a,b" with
       | Some text => Ok (ascii_encode text) empty_world
       | None => Raise (DecodeError "utf-8") empty_world
       end.
Proof.
  assert (Hpre : contains (fun c => (c =? "=")%char) "text/csv; " = false) by reflexivity.
  assert (Hne : "utf-8" <> "") by discriminate.
  assert (Hall : contains (fun c => negb (charset_char c)) "utf-8" = false) by reflexivity.
  split; [exact Hpre |]. split; [exact Hne |]. split; [exact Hall |].
  exact (normalize_encoding_declared_charset ascii_decode ascii_encode "a,b"
           "text/csv; " "utf-8" "" empty_world Hpre Hne Hall I).
Defined.

Lemma norm_cell_numeric_chars_witness :
  NUM_PAT_match "*5 678,9 (estimation)" = Some "5 678,9 "
  /\ contains (fun c => negb (isdigit c || (c =? ".")%char))
       (norm_cell "*5 678,9 (estimation)") = false.
Proof.
  split; [reflexivity |].
  apply (norm_cell_numeric_chars "*5 678,9 (estimation)" "5 678,9 "). reflexivity.
Defined.


Lemma locked_world_held : held "data" locked_world.
Proof. exists 0, 0, 1. repeat split; vm_compute; reflexivity. Defined.

Lemma lock_held_touches_no_file_witness :
  held "data" locked_world
  /\ exists w2,
       lock 2 "data" locked_world = Raise BlockingIOError w2
       /\ names w2 = names locked_world /\ inodes w2 = inodes locked_world
       /\ flocks w2 = flocks locked_world /\ events w2 = events locked_world.
Proof.
  split; [exact locked_world_held |].
  exact (lock_held_touches_no_file "data" 2 locked_world locked_world_held).
Defined.

Lemma main_lock_held_aborts_witness :
  held "data" locked_world
  /\ exists w2,
       main ascii_decode ascii_encode soup_4 2 "data" false locked_world
       = Raise BlockingIOError w2
       /\ events w2 = events locked_world /\ net w2 = net locked_world
       /\ names w2 = names locked_world /\ inodes w2 = inodes locked_world.
Proof.
  split; [exact locked_world_held |].
  exact (main_lock_held_aborts ascii_decode ascii_encode soup_4 2 "data" false
           locked_world locked_world_held).
Defined.
